(** * regpath: a path abstraction over the Windows registry

    A shallow embedding of [regpath/__init__.py] (class [RegistryPath])
    and the properties of its specification.

    Conventions of the embedding:
    - a Python [str] is a [string]; on ASCII text, [str.upper],
      [str.lower] and the slice [s[n:]] are what [PyStr.upper],
      [PyStr.lower] and [PyStr.drop] compute (outside ASCII Python maps
      letters the definitions leave alone and counts code points, not
      bytes), so what is proved of the letter case or of the cut of a raw
      path is stated for ASCII raw paths, [PyStr.is_ascii];
    - an exception is a value of [exn]; a call that may raise returns a
      [result]; code that talks to the registry or reads a memoised
      property runs in the state-and-exception monad [M];
    - [winreg] is not part of the package: its functions are the class
      [Winreg], an interface any store can implement; its integer
      constants are the ones of the Windows headers;
    - the properties under [functools.lru_cache] are modelled with their
      tables, which are keyed by [self] through [__hash__] and [__eq__]. *)

From Stdlib Require Import ZArith Ascii String List Bool Lia.
From stdpp Require Import base strings list gmap.

Open Scope Z_scope.

(** ** Python strings *)

Module PyStr.

Definition backslash : ascii := "\"%char.
Definition percent : ascii := "%"%char.

Definition upper_ascii (c : ascii) : ascii :=
  let n := N_of_ascii c in
  if ((97 <=? n) && (n <=? 122))%N then ascii_of_N (n - 32) else c.

Definition lower_ascii (c : ascii) : ascii :=
  let n := N_of_ascii c in
  if ((65 <=? n) && (n <=? 90))%N then ascii_of_N (n + 32) else c.

(** [s.upper()] and [s.lower()] *)
Fixpoint upper (s : string) : string :=
  match s with
  | EmptyString => EmptyString
  | String c s' => String (upper_ascii c) (upper s')
  end.

Fixpoint lower (s : string) : string :=
  match s with
  | EmptyString => EmptyString
  | String c s' => String (lower_ascii c) (lower s')
  end.

(** [s.startswith(pre)] *)
Definition startswith (pre s : string) : bool := String.prefix pre s.

(** [s[n:]] for a non-negative [n] *)
Fixpoint drop (n : nat) (s : string) : string :=
  match n, s with
  | O, _ => s
  | S _, EmptyString => EmptyString
  | S n', String _ s' => drop n' s'
  end.

(** [s.lstrip(c)] for a one-character set *)
Fixpoint lstrip (c : ascii) (s : string) : string :=
  match s with
  | EmptyString => EmptyString
  | String c' s' => if Ascii.eqb c' c then lstrip c s' else s
  end.

(** [s.split(sep)] for a one-character separator: one more component
    than there are separators, empty components kept. *)
Fixpoint split (sep : ascii) (s : string) : list string :=
  match s with
  | EmptyString => [EmptyString]
  | String c s' =>
      if Ascii.eqb c sep then EmptyString :: split sep s'
      else match split sep s' with
           | [] => [String c EmptyString]
           | w :: ws => String c w :: ws
           end
  end.

(** [sep.join(l)] for a one-character separator *)
Fixpoint join (sep : ascii) (l : list string) : string :=
  match l with
  | [] => EmptyString
  | [w] => w
  | w :: ws => w +:+ String sep (join sep ws)
  end.

(** [s.count(c)] for a one-character pattern *)
Fixpoint count (c : ascii) (s : string) : nat :=
  match s with
  | EmptyString => O
  | String c' s' => if Ascii.eqb c' c then S (count c s') else count c s'
  end.

(** [c in s] does not occur *)
Fixpoint lacks (c : ascii) (s : string) : bool :=
  match s with
  | EmptyString => true
  | String c' s' => negb (Ascii.eqb c' c) && lacks c s'
  end.

(** [not s] *)
Definition is_empty (s : string) : bool :=
  match s with EmptyString => true | _ => false end.

(** [s.isascii()] *)
Fixpoint is_ascii (s : string) : bool :=
  match s with
  | EmptyString => true
  | String c s' => (N_of_ascii c <? 128)%N && is_ascii s'
  end.

End PyStr.

(** ** Python sequences *)

Module PySeq.

(** An index of a slice, as Python normalises it: a negative index counts
    from the end, and the result is clamped to [0, len]. *)
Definition clamp (len i : Z) : nat :=
  let j := if i <? 0 then i + len else i in
  Z.to_nat (Z.max 0 (Z.min len j)).

(** [l[lo:hi]]; [None] stands for an omitted bound. *)
Definition slice {A} (lo hi : option Z) (l : list A) : list A :=
  let len := Z.of_nat (length l) in
  let a := match lo with Some i => clamp len i | None => O end in
  let b := match hi with Some i => clamp len i | None => length l end in
  firstn (b - a) (skipn a l).

(** [range(lo, hi)] *)
Definition range (lo hi : Z) : list Z :=
  map (fun k => lo + Z.of_nat k) (seq 0 (Z.to_nat (hi - lo))).

End PySeq.

(** ** Exceptions *)

(** The exception classes the module raises or lets through.
    [HKeyNotFoundError] subclasses [FileNotFoundError]; [FileNotFoundError],
    [FileExistsError] and [NotADirectoryError] subclass [OSError], which
    also stands for every other error of the store (access denied, ...). *)
Inductive exn : Type :=
| ValueError (msg : string)
| KeyError (key : string)
| IndexError
| HKeyNotFoundError (path : string)
| FileNotFoundError (msg : string)
| FileExistsError (msg : string)
| NotADirectoryError (msg : string)
| OSError (msg : string).

(** The class of an exception, without its payload. *)
Inductive exn_class : Type :=
| CValueError | CKeyError | CIndexError | CHKeyNotFoundError
| CFileNotFoundError | CFileExistsError | CNotADirectoryError | COSError.

Definition class_of (e : exn) : exn_class :=
  match e with
  | ValueError _ => CValueError
  | KeyError _ => CKeyError
  | IndexError => CIndexError
  | HKeyNotFoundError _ => CHKeyNotFoundError
  | FileNotFoundError _ => CFileNotFoundError
  | FileExistsError _ => CFileExistsError
  | NotADirectoryError _ => CNotADirectoryError
  | OSError _ => COSError
  end.

(** What [except FileNotFoundError] catches. *)
Definition is_FileNotFoundError (e : exn) : bool :=
  match e with
  | HKeyNotFoundError _ | FileNotFoundError _ => true
  | _ => false
  end.

Inductive result (A : Type) : Type :=
| Ok (a : A)
| Raise (e : exn).
Arguments Ok {A} a.
Arguments Raise {A} e.

Definition result_bind {A B} (r : result A) (k : A -> result B) : result B :=
  match r with
  | Ok a => k a
  | Raise e => Raise e
  end.

(** ** The monad of the code *)

(** State passing with exceptions, over a state of type [S]: the memo
    tables for the path model, the memo tables and the store for the
    registry operations. *)
Definition St (S A : Type) : Type := S -> result A * S.

Definition ret {S A} (a : A) : St S A := fun st => (Ok a, st).

Definition raise {S A} (e : exn) : St S A := fun st => (Raise e, st).

Definition bind {S A B} (m : St S A) (k : A -> St S B) : St S B :=
  fun st =>
    match m st with
    | (Ok a, st') => k a st'
    | (Raise e, st') => (Raise e, st')
    end.

Definition lift {S A} (r : result A) : St S A := fun st => (r, st).

Declare Scope py_scope.
Delimit Scope py_scope with py.
Notation "x <- m ;; k" := (bind m (fun x => k))
  (at level 100, m at next level, right associativity) : py_scope.
Open Scope py_scope.

(** [try: body  except FileNotFoundError as e: handler] *)
Definition try_except_FileNotFoundError {S A} (body : St S A)
           (handler : exn -> St S A) : St S A :=
  fun st =>
    match body st with
    | (Raise e, st') =>
        if is_FileNotFoundError e then handler e st' else (Raise e, st')
    | ok => ok
    end.

(** [for x in l: ret_list.append(f(x))] *)
Fixpoint for_each {S A B} (l : list A) (f : A -> St S B) : St S (list B) :=
  match l with
  | [] => ret []
  | x :: l' => y <- f x ;; ys <- for_each l' f ;; ret (y :: ys)
  end.

(** [a or b] on optional strings: [None] and the empty string are falsy. *)
Definition py_or (a b : option string) : option string :=
  match a with
  | Some s => if PyStr.is_empty s then b else Some s
  | None => b
  end.

(** ** The root table *)

Definition HKEY_CLASSES_ROOT : Z := 0x80000000.
Definition HKEY_CURRENT_USER : Z := 0x80000001.
Definition HKEY_LOCAL_MACHINE : Z := 0x80000002.
Definition HKEY_USERS : Z := 0x80000003.
Definition HKEY_CURRENT_CONFIG : Z := 0x80000005.

Definition REGISTRY_KEYS_items : list (string * Z) :=
  [ ("HKCR"%string, HKEY_CLASSES_ROOT);
    ("HKEY_CLASSES_ROOT"%string, HKEY_CLASSES_ROOT);
    ("HKCU"%string, HKEY_CURRENT_USER);
    ("HKEY_CURRENT_USER"%string, HKEY_CURRENT_USER);
    ("HKLM"%string, HKEY_LOCAL_MACHINE);
    ("HKEY_LOCAL_MACHINE"%string, HKEY_LOCAL_MACHINE);
    ("HKU"%string, HKEY_USERS);
    ("HKEY_USERS"%string, HKEY_USERS);
    ("HKCC"%string, HKEY_CURRENT_CONFIG);
    ("HKEY_CURRENT_CONFIG"%string, HKEY_CURRENT_CONFIG) ].

Definition REGISTRY_KEYS : gmap string Z := list_to_map REGISTRY_KEYS_items.

(** ** The path object *)

Record RegistryPath : Type := mkRegistryPath {
  computer : option string;
  value_name : option string;
  _raw_path : string;
  _key : Z
}.

Definition split_path (raw : string) : list string :=
  PyStr.split PyStr.backslash raw.

Definition join_path (components : list string) : string :=
  PyStr.join PyStr.backslash components.

(** [_path_split]: the raw path cut at every backslash, and at nothing else. *)
Definition _path_split (self : RegistryPath) : list string :=
  split_path (_raw_path self).

(** [__repr__], on the three fields it prints. *)
Definition repr_of (raw : string) (vn comp : option string) : string :=
  let ret :=
    match vn with
    | None => "<RegistryPath: " +:+ raw
    | Some v => "<RegistryPath: " +:+ raw +:+ " -> " +:+ v
    end in
  let ret :=
    match comp with
    | None => ret
    | Some c => ret +:+ " On " +:+ c
    end in
  ret +:+ ">".

Definition __repr__ (self : RegistryPath) : string :=
  repr_of (_raw_path self) (value_name self) (computer self).

(** The host argument as [__init__] normalises it. *)
Definition normalize_computer (computer : option string) : option string :=
  let computer :=
    match computer with
    | Some c => if String.eqb (PyStr.lower c) "computer" then None else Some c
    | None => None
    end in
  match computer with
  | Some c => Some ("\\" +:+ PyStr.lstrip PyStr.backslash c)
  | None => None
  end.

(** [_parse_raw_path]: the root constant of the first component.  The
    membership test upper-cases the component; the lookup takes it as
    written. *)
Definition _parse_raw_path (self_repr : string) (path_components : list string)
  : result Z :=
  match path_components with
  | [] => Raise IndexError
  | first_component :: _ =>
      match REGISTRY_KEYS !! PyStr.upper first_component with
      | Some _ =>
          let key_raw := first_component in
          match REGISTRY_KEYS !! key_raw with
          | Some k => Ok k
          | None => Raise (KeyError key_raw)
          end
      | None => Raise (HKeyNotFoundError self_repr)
      end
  end.

(** [RegistryPath(raw_path, value_name, computer)] *)
Definition __init__ (raw_path : string) (value_name computer : option string)
  : result RegistryPath :=
  let computer := normalize_computer computer in
  if PyStr.is_empty raw_path then
    Raise (ValueError
      "The given raw registry path must be a string and longer than one character")
  else
    let raw_path :=
      if PyStr.startswith "computer" (PyStr.lower raw_path)
      then PyStr.drop (String.length "computer" + 1) raw_path
      else raw_path in
    result_bind
      (_parse_raw_path (repr_of raw_path value_name computer)
                       (split_path raw_path))
      (fun key => Ok (mkRegistryPath computer value_name raw_path key)).

(** [with_value_name] *)
Definition with_value_name (self : RegistryPath) (value_name' : option string)
  : result RegistryPath :=
  __init__ (_raw_path self) value_name' (computer self).

(** ** Equality and hashing *)

(** Python's hash of a [str], taken to be free of collisions: an injective
    code of the characters. *)
Fixpoint str_code (s : string) : N :=
  match s with
  | EmptyString => 1
  | String c s' => N_of_ascii c + 256 * str_code s'
  end.

Definition py_hash (s : string) : Z := Z.of_N (str_code s).

Definition __hash__ (self : RegistryPath) : Z := py_hash (__repr__ self).

Definition __eq__ (self other : RegistryPath) : bool :=
  __hash__ self =? __hash__ other.

(** ** Memoisation *)

(** The table of [functools.lru_cache] (default size) on a method: keyed by
    [self], looked up through [__eq__], most recently used entry first. *)
Module Lru.

Definition maxsize : nat := 128.

Definition t (V : Type) : Type := list (RegistryPath * V).

Fixpoint find {V} (self : RegistryPath) (c : t V) : option (RegistryPath * V) :=
  match c with
  | [] => None
  | (k, v) :: c' => if __eq__ k self then Some (k, v) else find self c'
  end.

Definition get {V} (self : RegistryPath) (c : t V) : option V :=
  snd <$> find self c.

Fixpoint remove {V} (self : RegistryPath) (c : t V) : t V :=
  match c with
  | [] => []
  | (k, v) :: c' => if __eq__ k self then c' else (k, v) :: remove self c'
  end.

(** a hit moves the entry to the front *)
Definition touch {V} (self : RegistryPath) (c : t V) : t V :=
  match find self c with
  | Some hit => hit :: remove self c
  | None => c
  end.

(** a miss stores the result; a full table drops its oldest entry *)
Definition add {V} (self : RegistryPath) (v : V) (c : t V) : t V :=
  match find self c with
  | Some _ => c
  | None => firstn maxsize ((self, v) :: c)
  end.

End Lru.

Record Memo : Type := mkMemo {
  parent_cache : Lru.t RegistryPath;
  parents_cache : Lru.t (list RegistryPath);
  name_cache : Lru.t string;
  subkey_cache : Lru.t string;
  parts_cache : Lru.t (list string)
}.

Definition Memo_empty : Memo := mkMemo [] [] [] [] [].

(** One memoised property: where its table lives in [Memo]. *)
Record slot (V : Type) : Type := mkSlot {
  slot_get : Memo -> Lru.t V;
  slot_set : Lru.t V -> Memo -> Memo
}.
Arguments slot_get {V} _ _.
Arguments slot_set {V} _ _ _.

Definition parent_slot : slot RegistryPath :=
  mkSlot _ parent_cache
    (fun c m => mkMemo c (parents_cache m) (name_cache m) (subkey_cache m) (parts_cache m)).
Definition parents_slot : slot (list RegistryPath) :=
  mkSlot _ parents_cache
    (fun c m => mkMemo (parent_cache m) c (name_cache m) (subkey_cache m) (parts_cache m)).
Definition name_slot : slot string :=
  mkSlot _ name_cache
    (fun c m => mkMemo (parent_cache m) (parents_cache m) c (subkey_cache m) (parts_cache m)).
Definition subkey_slot : slot string :=
  mkSlot _ subkey_cache
    (fun c m => mkMemo (parent_cache m) (parents_cache m) (name_cache m) c (parts_cache m)).
Definition parts_slot : slot (list string) :=
  mkSlot _ parts_cache
    (fun c m => mkMemo (parent_cache m) (parents_cache m) (name_cache m) (subkey_cache m) c).

(** The wrapper [functools.lru_cache] puts around a method body: a stored
    result is returned without running the body; a raised exception is not
    stored. *)
Definition lru_cache {V} (s : slot V) (self : RegistryPath) (body : St Memo V)
  : St Memo V :=
  fun m =>
    match Lru.get self (slot_get s m) with
    | Some v => (Ok v, slot_set s (Lru.touch self (slot_get s m)) m)
    | None =>
        match body m with
        | (Ok v, m') => (Ok v, slot_set s (Lru.add self v (slot_get s m')) m')
        | (Raise e, m') => (Raise e, m')
        end
    end.

(** ** The path model *)

(** [parts] *)
Definition parts_body (self : RegistryPath) : list string :=
  let ret_list := _path_split self in
  match value_name self with
  | Some v => ret_list ++ [v]
  | None => ret_list
  end.

Definition parts (self : RegistryPath) : St Memo (list string) :=
  lru_cache parts_slot self (ret (parts_body self)).

(** [subkey] *)
Definition subkey (self : RegistryPath) : St Memo string :=
  lru_cache subkey_slot self
    (match value_name self with
     | Some _ =>
         ps <- parts self ;;
         ret (join_path (PySeq.slice (Some 1) (Some (-1)) ps))
     | None =>
         ps <- parts self ;;
         ret (join_path (PySeq.slice (Some 1) None ps))
     end).

(** [name] *)
Definition name (self : RegistryPath) : St Memo string :=
  lru_cache name_slot self
    (match value_name self with
     | None =>
         ps <- parts self ;;
         match last ps with
         | Some w => ret w
         | None => raise IndexError
         end
     | Some v => ret v
     end).

(** [parents] *)
Definition parents (self : RegistryPath) : St Memo (list RegistryPath) :=
  lru_cache parents_slot self
    (ps <- parts self ;;
     for_each (PySeq.range 1 (Z.of_nat (length ps)))
       (fun i =>
          ps <- parts self ;;
          lift (__init__ (join_path (PySeq.slice None (Some (- i)) ps)) None None))).

(** [parent] *)
Definition parent (self : RegistryPath) : St Memo RegistryPath :=
  lru_cache parent_slot self
    (ps <- parents self ;;
     match ps with
     | p :: _ => ret p
     | [] => raise IndexError
     end).

(** [__truediv__], the [/] operator *)
Definition __truediv__ (self : RegistryPath) (other : string)
  : St Memo RegistryPath :=
  match value_name self with
  | Some _ =>
      raise (ValueError "Cannot do <path to file/value name> <SLASH> something else")
  | None =>
      ps <- parts self ;;
      lift (__init__ (join_path ps +:+ "\" +:+ other) None (computer self))
  end.

(** ** Values, handles and the winreg interface *)

#[warnings="-register-all"]
Inductive pyval : Type :=
| PyStr (s : string)
| PyList (l : list pyval)
| PyNone
| PyInt (z : Z)
| PyBool (b : bool)
| PyBytes (b : string).

Definition handle : Type := Z.

Definition KEY_READ : Z := 0x20019.
Definition KEY_WRITE : Z := 0x20006.

Definition REG_NONE : Z := 0.
Definition REG_SZ : Z := 1.
Definition REG_EXPAND_SZ : Z := 2.
Definition REG_BINARY : Z := 3.
Definition REG_DWORD : Z := 4.
Definition REG_MULTI_SZ : Z := 7.
Definition REG_QWORD : Z := 11.

(** The functions of [winreg] the module calls, over a store of type [W].
    Each returns its answer, or the exception it raises, and the store
    after the call.  Closing a handle (what leaving a [with] block does to
    a handle object) does not fail. *)
Class Winreg (W : Type) : Type := {
  ConnectRegistry : option string -> Z -> W -> result handle * W;
  OpenKey : handle -> string -> Z -> W -> result handle * W;
  CloseKey : handle -> W -> W;
  QueryValueEx : handle -> string -> W -> result (pyval * Z) * W;
  QueryInfoKey : handle -> W -> result (Z * Z * Z) * W;
  EnumKey : handle -> Z -> W -> result string * W;
  EnumValue : handle -> Z -> W -> result (string * pyval * Z) * W;
  DeleteValue : handle -> string -> W -> result unit * W;
  SetValueEx : handle -> string -> Z -> Z -> pyval -> W -> result unit * W
}.

(** The calls made to [winreg], in order, as a mock would record them. *)
Inductive call : Type :=
| CallConnectRegistry (computer : option string) (key : Z)
| CallOpenKey (reg_handle : handle) (sub_key : string) (access : Z)
| CallClose (h : handle)
| CallQueryValueEx (h : handle) (name : string)
| CallQueryInfoKey (h : handle)
| CallEnumKey (h : handle) (index : Z)
| CallEnumValue (h : handle) (index : Z)
| CallDeleteValue (h : handle) (name : string)
| CallSetValueEx (h : handle) (name : string) (reserved typ : Z) (value : pyval).

(** What a registry operation runs on: the memo tables, the store, and
    the calls made so far. *)
Record State (W : Type) : Type := mkState {
  memo : Memo;
  world : W;
  calls : list call
}.
Arguments mkState {W} _ _ _.
Arguments memo {W} _.
Arguments world {W} _.
Arguments calls {W} _.

Definition M (W A : Type) : Type := St (State W) A.

(** ** Registry operations *)

Section Methods.

Context {W : Type} `{Winreg W}.

Local Abbreviation M := (M W).

(** A memoised property read from a registry operation. *)
Definition memoised {A} (m : St Memo A) : M A :=
  fun st =>
    let (r, m') := m (memo st) in
    (r, mkState m' (world st) (calls st)).

(** *** Calls to winreg, recorded *)

Definition record {A} (c : call) (f : W -> result A * W) : M A :=
  fun st =>
    let (r, w) := f (world st) in
    (r, mkState (memo st) w (calls st ++ [c])).

Definition connect_registry (computer : option string) (key : Z) : M handle :=
  record (CallConnectRegistry computer key) (ConnectRegistry computer key).

Definition open_key (reg_handle : handle) (sub_key : string) (access : Z)
  : M handle :=
  record (CallOpenKey reg_handle sub_key access)
         (OpenKey reg_handle sub_key access).

Definition close (h : handle) (st : State W) : State W :=
  mkState (memo st) (CloseKey h (world st)) (calls st ++ [CallClose h]).

Definition query_value_ex (h : handle) (name : string) : M (pyval * Z) :=
  record (CallQueryValueEx h name) (QueryValueEx h name).

Definition query_info_key (h : handle) : M (Z * Z * Z) :=
  record (CallQueryInfoKey h) (QueryInfoKey h).

Definition enum_key (h : handle) (index : Z) : M string :=
  record (CallEnumKey h index) (EnumKey h index).

Definition enum_value (h : handle) (index : Z) : M (string * pyval * Z) :=
  record (CallEnumValue h index) (EnumValue h index).

Definition delete_value (h : handle) (name : string) : M unit :=
  record (CallDeleteValue h name) (DeleteValue h name).

Definition set_value_ex (h : handle) (name : string) (reserved typ : Z)
           (value : pyval) : M unit :=
  record (CallSetValueEx h name reserved typ value)
         (SetValueEx h name reserved typ value).

(** [with acquire as h: body]: the handle is closed when the block is
    left, whether [body] returned or raised. *)
Definition with_ {A} (acquire : M handle) (body : handle -> M A) : M A :=
  h <- acquire ;;
  fun st => let (r, st') := body h st in (r, close h st').

(** *** The handle broker *)

Definition access_mask (reads writes : bool) : Z :=
  let access := 0 in
  let access := if reads then Z.lor access KEY_READ else access in
  let access := if writes then Z.lor access KEY_WRITE else access in
  access.

(** [_get_subkey_handle], with the block it guards as [body]. *)
Definition _get_subkey_handle {A} (self : RegistryPath) (reads writes : bool)
           (body : handle -> M A) : M A :=
  let access := access_mask reads writes in
  with_ (connect_registry (computer self) (_key self)) (fun reg_handle =>
    sub_key <- memoised (subkey self) ;;
    with_ (open_key reg_handle sub_key access) (fun handle => body handle)).

(** *** Existence *)

(** [exists] *)
Definition exists_ (self : RegistryPath) : M bool :=
  try_except_FileNotFoundError
    (_get_subkey_handle self true false (fun handle =>
       match value_name self with
       | None => ret true
       | Some v => _ <- query_value_ex handle v ;; ret true
       end))
    (fun _ => ret false).

(** [is_dir] *)
Definition is_dir (self : RegistryPath) : M bool :=
  match value_name self with
  | None => exists_ self
  | Some _ => ret false
  end.

(** [is_file] *)
Definition is_file (self : RegistryPath) (value_name' : option string) : M bool :=
  let vname := py_or value_name' (value_name self) in
  match vname with
  | None => ret false
  | Some _ => p <- lift (with_value_name self value_name') ;; exists_ p
  end.

(** [registry_type] *)
Definition registry_type (self : RegistryPath) : M Z :=
  match value_name self with
  | None =>
      raise (ValueError
        "This function only works if value_name is set.. so it only works with values")
  | Some v =>
      _get_subkey_handle self true false (fun handle =>
        r <- query_value_ex handle v ;; ret (snd r))
  end.

(** *** Enumeration and deletion *)

(** [list(self.iterdir())]: the generator run to its end. *)
Definition iterdir (self : RegistryPath) : M (list RegistryPath) :=
  d <- is_dir self ;;
  if negb d then
    raise (NotADirectoryError (__repr__ self +:+ " is not a key/directory"))
  else
    _get_subkey_handle self true false (fun handle =>
      info <- query_info_key handle ;;
      let '(num_sub_keys, num_values, _) := info in
      ks <- for_each (PySeq.range 0 num_sub_keys) (fun sub_key_idx =>
              sub_key_name <- enum_key handle sub_key_idx ;;
              memoised (__truediv__ self sub_key_name)) ;;
      vs <- for_each (PySeq.range 0 num_values) (fun value_idx =>
              v <- enum_value handle value_idx ;;
              let '(value_name, _, _) := v in
              lift (with_value_name self (Some value_name))) ;;
      ret (ks ++ vs)).

(** [unlink] *)
Definition unlink (self : RegistryPath) (missing_ok : bool) : M unit :=
  match value_name self with
  | None =>
      raise (FileNotFoundError
               (__repr__ self +:+ " points to a directory/key not a file"))
  | Some v =>
      _get_subkey_handle self true true (fun handle =>
        try_except_FileNotFoundError
          (delete_value handle v)
          (fun e => if negb missing_ok then raise e else ret tt))
  end.

(** *** Reading and writing values *)

(** [read_raw] *)
Definition read_raw (self : RegistryPath) (value_name' : option string)
  : M (pyval * Z) :=
  match py_or value_name' (value_name self) with
  | None => raise (ValueError "value_name must be provided to use read_raw()")
  | Some vname =>
      _get_subkey_handle self true false (fun handle =>
        query_value_ex handle vname)
  end.

(** [read] *)
Definition read (self : RegistryPath) (value_name' : option string) : M pyval :=
  r <- read_raw self value_name' ;;
  ret (fst r).

(** [write_raw] *)
Definition write_raw (self : RegistryPath) (value : pyval) (typ : Z)
           (value_name' : option string) : M unit :=
  match py_or value_name' (value_name self) with
  | None => raise (ValueError "value_name must be provided to use write_raw()")
  | Some vname =>
      _get_subkey_handle self true true (fun handle =>
        set_value_ex handle vname 0 typ value)
  end.

(** [write] *)
Definition write (self : RegistryPath) (value : pyval)
           (value_name' : option string) (read_type : bool) : M unit :=
  match py_or value_name' (value_name self) with
  | None => raise (ValueError "value_name must be provided to use write()")
  | Some vname =>
      let typ := REG_BINARY in
      let guess_type := true in
      tg <- (if read_type then
               try_except_FileNotFoundError
                 (p <- lift (with_value_name self (Some vname)) ;;
                  typ <- registry_type p ;;
                  ret (typ, false))
                 (fun _ => ret (typ, guess_type))
             else ret (typ, guess_type)) ;;
      let '(typ, guess_type) := tg in
      typ <- (if guess_type then
                match value with
                | PyStr s =>
                    let percent_count := Z.of_nat (PyStr.count PyStr.percent s) in
                    if (percent_count >? 0) && (percent_count mod 2 =? 0)
                    then ret REG_EXPAND_SZ
                    else ret REG_SZ
                | PyList _ => ret REG_MULTI_SZ
                | PyNone => ret REG_NONE
                | PyInt _ | PyBool _ =>
                    let n := match value with
                             | PyInt z => z
                             | PyBool b => Z.b2z b
                             | _ => 0
                             end in
                    if n <? 0 then
                      raise (ValueError
                        "Guessed an integer type.. but you passed a negative. Numbers in the registry are unsigned.")
                    else if n >? 0xFFFFFFFF then ret REG_QWORD
                    else ret REG_DWORD
                | PyBytes _ => ret typ
                end
              else ret typ) ;;
      write_raw self value typ (Some vname)
  end.

End Methods.

(** ** A store to run the code against *)

(** A registry with one key below every root, in the manner of the test
    suite's mocks: the key's name, the names of its subkeys, its values. *)
Module Mock.

Record store : Type := mkStore {
  the_key : string;
  sub_keys : list string;
  values : list (string * (pyval * Z))
}.

Definition reg_handle : handle := 1.
Definition key_handle : handle := 2.

Definition not_found : exn :=
  FileNotFoundError "The system cannot find the file specified".

Definition no_more_data : exn := OSError "No more data is available".

Definition find (name : string) (vs : list (string * (pyval * Z)))
  : option (pyval * Z) :=
  snd <$> List.find (fun kv => String.eqb (fst kv) name) vs.

Definition remove (name : string) (vs : list (string * (pyval * Z)))
  : list (string * (pyval * Z)) :=
  List.filter (fun kv => negb (String.eqb (fst kv) name)) vs.

Definition at_index {A} (l : list A) (i : Z) : result A :=
  if i <? 0 then Raise no_more_data
  else match nth_error l (Z.to_nat i) with
       | Some x => Ok x
       | None => Raise no_more_data
       end.

#[global] Instance winreg : Winreg store := {
  ConnectRegistry _ _ w := (Ok reg_handle, w);
  OpenKey _ sub_key _ w :=
    (if String.eqb sub_key (the_key w) then Ok key_handle else Raise not_found, w);
  CloseKey _ w := w;
  QueryValueEx _ name w :=
    (match find name (values w) with
     | Some v => Ok v
     | None => Raise not_found
     end, w);
  QueryInfoKey _ w :=
    (Ok (Z.of_nat (length (sub_keys w)), Z.of_nat (length (values w)), 0), w);
  EnumKey _ i w := (at_index (sub_keys w) i, w);
  EnumValue _ i w :=
    (result_bind (at_index (values w) i)
       (fun kv => Ok (fst kv, fst (snd kv), snd (snd kv))), w);
  DeleteValue _ name w :=
    match find name (values w) with
    | Some _ => (Ok tt, mkStore (the_key w) (sub_keys w) (remove name (values w)))
    | None => (Raise not_found, w)
    end;
  SetValueEx _ name _ typ value w :=
    (Ok tt, mkStore (the_key w) (sub_keys w)
                    ((name, (value, typ)) :: remove name (values w)))
}.

(** A fresh interpreter: nothing memoised, no call made. *)
Definition fresh (w : store) : State store := mkState Memo_empty w [].

End Mock.

(** A registry that refuses every call, as it does to an account without
    the rights. *)
Module Denied.

Definition access_denied : exn := OSError "Access is denied".

#[global] Instance winreg : Winreg unit := {
  ConnectRegistry _ _ w := (Raise access_denied, w);
  OpenKey _ _ _ w := (Raise access_denied, w);
  CloseKey _ w := w;
  QueryValueEx _ _ w := (Raise access_denied, w);
  QueryInfoKey _ w := (Raise access_denied, w);
  EnumKey _ _ w := (Raise access_denied, w);
  EnumValue _ _ w := (Raise access_denied, w);
  DeleteValue _ _ w := (Raise access_denied, w);
  SetValueEx _ _ _ _ _ w := (Raise access_denied, w)
}.

Definition fresh : State unit := mkState Memo_empty tt [].

End Denied.

(** ** Notions the properties are stated with *)

(** [run m st]: what [m] returns or raises from [st]. *)
Definition run {S A} (m : St S A) (st : S) : result A := fst (m st).

(** A path that came out of the constructor. *)
Definition constructed (p : RegistryPath) : Prop :=
  exists raw vn comp, __init__ raw vn comp = Ok p.

(** The components of a path are those of its raw path, root alias
    first; its segments are the subkey names after the root alias, none
    for a root alone.  [parts] is the components followed by the value
    name. *)
Definition components (p : RegistryPath) : list string := _path_split p.

Definition segments (p : RegistryPath) : list string := tail (components p).

(** The path of an alias alone, on the local machine. *)
Definition root_only (alias : string) (key : Z) : RegistryPath :=
  mkRegistryPath None None alias key.

(** The path [self / other] comes to, and the path
    [self.with_value_name(v)] comes to. *)
Definition child (self : RegistryPath) (other : string) : RegistryPath :=
  mkRegistryPath (computer self) None (_raw_path self +:+ "\" +:+ other) (_key self).

Definition valued (self : RegistryPath) (v : option string) : RegistryPath :=
  mkRegistryPath (computer self) v (_raw_path self) (_key self).

(** What the bodies of the memoised properties compute for [p]. *)
Definition subkey_value (p : RegistryPath) : string :=
  join_path (tail (_path_split p)).

Definition name_value (p : RegistryPath) : string :=
  match value_name p with
  | None => List.last (_path_split p) EmptyString
  | Some v => v
  end.

(** The ancestor of [p] that keeps the first [n] of its parts, and the
    ancestors the loop of [parents] builds: for [i] from 1, the one that
    drops the last [i] parts. *)
Definition ancestor (p : RegistryPath) (n : nat) : RegistryPath :=
  mkRegistryPath None None (join_path (firstn n (parts_body p))) (_key p).

Definition ancestors (p : RegistryPath) : list RegistryPath :=
  let n := length (parts_body p) in
  map (fun i => ancestor p (n - i)) (seq 1 (n - 1)).

(** Whatever a table holds under a key equal to [p] satisfies [P]. *)
Definition holds {V} (c : Lru.t V) (p : RegistryPath) (P : V -> Prop) : Prop :=
  forall v, Lru.get p c = Some v -> P v.

(** The memo tables are coherent for [p]: what they hold under a key equal
    to [p] is what the property's body computes for [p].  Empty tables are
    coherent for every path, and reading a property of [p] keeps them
    coherent for [p]; tables stop being coherent for [p] when a property
    is read on another path that prints like [p]. *)
Definition coherent (p : RegistryPath) (m : Memo) : Prop :=
  holds (parts_cache m) p (eq (parts_body p)) /\
  holds (subkey_cache m) p (eq (subkey_value p)) /\
  holds (name_cache m) p (eq (name_value p)) /\
  holds (parents_cache m) p (eq (ancestors p)) /\
  holds (parent_cache m) p (fun q => head (ancestors p) = Some q).

Section Observations.

Context {W : Type} `{Winreg W}.

(** What the store answers when the key of [p] is opened and, for a
    value path, the value is queried: nothing wrong, or the first
    exception raised. *)
Definition probe (p : RegistryPath) (st : State W) : result unit :=
  match ConnectRegistry (computer p) (_key p) (world st) with
  | (Raise e, _) => Raise e
  | (Ok reg_handle, w1) =>
      match subkey p (memo st) with
      | (Raise e, _) => Raise e
      | (Ok sub_key, _) =>
          match OpenKey reg_handle sub_key KEY_READ w1 with
          | (Raise e, _) => Raise e
          | (Ok h, w2) =>
              match value_name p with
              | None => Ok tt
              | Some v =>
                  match QueryValueEx h v w2 with
                  | (Raise e, _) => Raise e
                  | (Ok _, _) => Ok tt
                  end
              end
          end
      end
  end.

(** The names the store reports for the subkeys at the given indices,
    asked in that order. *)
Fixpoint enum_key_names (h : handle) (indices : list Z) (w : W)
  : result (list string) * W :=
  match indices with
  | [] => (Ok [], w)
  | i :: rest =>
      match EnumKey h i w with
      | (Raise e, w') => (Raise e, w')
      | (Ok n, w') =>
          match enum_key_names h rest w' with
          | (Raise e, w'') => (Raise e, w'')
          | (Ok ns, w'') => (Ok (n :: ns), w'')
          end
      end
  end.

(** The same for the names of the values. *)
Fixpoint enum_value_names (h : handle) (indices : list Z) (w : W)
  : result (list string) * W :=
  match indices with
  | [] => (Ok [], w)
  | i :: rest =>
      match EnumValue h i w with
      | (Raise e, w') => (Raise e, w')
      | (Ok (n, _, _), w') =>
          match enum_value_names h rest w' with
          | (Raise e, w'') => (Raise e, w'')
          | (Ok ns, w'') => (Ok (n :: ns), w'')
          end
      end
  end.

End Observations.

(** ** Creating and removing keys *)

(** The two further functions of [winreg] that [mkdir] and [rmdir] call.
    They are not among the calls that [call] records: what they do shows
    in the store. *)
Class WinregKeys (W : Type) `{Winreg W} : Type := {
  CreateKey : handle -> string -> W -> result handle * W;
  DeleteKey : handle -> string -> W -> result unit * W
}.

Section KeyOperations.

Context {W : Type} `{WinregKeys W}.

Local Abbreviation M := (M W).

Definition create_key (h : handle) (sub_key : string) : M handle :=
  fun st =>
    let (r, w) := CreateKey h sub_key (world st) in
    (r, mkState (memo st) w (calls st)).

Definition delete_key (h : handle) (sub_key : string) : M unit :=
  fun st =>
    let (r, w) := DeleteKey h sub_key (world st) in
    (r, mkState (memo st) w (calls st)).

(** The body of [mkdir], with the loop over the ancestors as
    [make_parents]. *)
Definition mkdir_body (make_parents : M unit) (self : RegistryPath)
           (exist_ok : bool) : M unit :=
  match value_name self with
  | Some _ =>
      raise (ValueError
        "Cannot mkdir if a value_name was given. This path is for a value not a key.")
  | None =>
      d <- is_dir self ;;
      if d then
        if exist_ok then ret tt
        else raise (FileExistsError ("Key " +:+ __repr__ self +:+ " already exists"))
      else
        _ <- make_parents ;;
        p <- memoised (parent self) ;;
        _get_subkey_handle p true true (fun handle =>
          n <- memoised (name self) ;;
          with_ (create_key handle n) (fun _ => ret tt))
  end.

(** [mkdir]; an ancestor is made by [p.mkdir(exist_ok=True)], which has
    [parents] off. *)
Definition mkdir (self : RegistryPath) (parents' exist_ok : bool) : M unit :=
  mkdir_body
    (if parents' then
       ps <- memoised (parents self) ;;
       _ <- for_each (rev ps) (fun p => mkdir_body (ret tt) p true) ;;
       ret tt
     else ret tt)
    self exist_ok.

(** [next(self.iterdir())] on a fresh generator that is then dropped:
    its first item, or [None] when it stops at once.  The handles of a
    generator left suspended are closed when it is dropped, as reference
    counting does. *)
Definition iterdir_first (self : RegistryPath) : M (option RegistryPath) :=
  d <- is_dir self ;;
  if negb d then
    raise (NotADirectoryError (__repr__ self +:+ " is not a key/directory"))
  else
    _get_subkey_handle self true false (fun handle =>
      info <- query_info_key handle ;;
      let '(num_sub_keys, num_values, _) := info in
      match PySeq.range 0 num_sub_keys with
      | sub_key_idx :: _ =>
          sub_key_name <- enum_key handle sub_key_idx ;;
          c <- memoised (__truediv__ self sub_key_name) ;;
          ret (Some c)
      | [] =>
          match PySeq.range 0 num_values with
          | value_idx :: _ =>
              v <- enum_value handle value_idx ;;
              let '(value_name, _, _) := v in
              c <- lift (with_value_name self (Some value_name)) ;;
              ret (Some c)
          | [] => ret None
          end
      end).

(** [rmdir] *)
Definition rmdir (self : RegistryPath) : M unit :=
  first <- iterdir_first self ;;
  match first with
  | Some _ =>
      raise (OSError ("The directory/key is not empty: " +:+ __repr__ self))
  | None =>
      p <- memoised (parent self) ;;
      _get_subkey_handle p true true (fun handle =>
        n <- memoised (name self) ;;
        delete_key handle n)
  end.

End KeyOperations.

(** A registry of keys without values, to run [mkdir] and [rmdir]
    against: the paths of its keys, each as the list of names from the
    root (the empty list for the root itself), and the key each handle
    handed out stands for. *)
Module Tree.

Record store : Type := mkStore {
  keys : list (list string);
  handles : list (list string)
}.

Definition reg_handle : handle := 0.

Definition access_denied : exn := OSError "Access is denied".

Definition path_of (sub_key : string) : list string :=
  if PyStr.is_empty sub_key then [] else split_path sub_key.

Definition key_of (w : store) (h : handle) : list string :=
  if h =? reg_handle then []
  else default [] (handles w !! Z.to_nat (h - 1)).

Definition has (w : store) (k : list string) : bool :=
  existsb (fun c => bool_decide (c = k)) (keys w).

Definition hand_out (w : store) (k : list string) : result handle * store :=
  (Ok (Z.of_nat (S (length (handles w)))), mkStore (keys w) (handles w ++ [k])).

Definition children (w : store) (k : list string) : list string :=
  omap (fun c => match c with
                 | [] => None
                 | _ => if bool_decide (removelast c = k)
                        then Some (List.last c EmptyString) else None
                 end) (keys w).

#[global] Instance winreg : Winreg store := {
  ConnectRegistry _ _ w := (Ok reg_handle, w);
  OpenKey h sub_key _ w :=
    let k := key_of w h ++ path_of sub_key in
    if has w k then hand_out w k else (Raise Mock.not_found, w);
  CloseKey _ w := w;
  QueryValueEx _ _ w := (Raise Mock.not_found, w);
  QueryInfoKey h w := (Ok (Z.of_nat (length (children w (key_of w h))), 0, 0), w);
  EnumKey h i w := (Mock.at_index (children w (key_of w h)) i, w);
  EnumValue _ _ w := (Raise Mock.no_more_data, w);
  DeleteValue _ _ w := (Raise Mock.not_found, w);
  SetValueEx _ _ _ _ _ w := (Raise access_denied, w)
}.

#[global] Instance winreg_keys : WinregKeys store := {
  CreateKey h sub_key w :=
    let k := key_of w h ++ path_of sub_key in
    hand_out (if has w k then w else mkStore (keys w ++ [k]) (handles w)) k;
  DeleteKey h sub_key w :=
    let k := key_of w h ++ path_of sub_key in
    if negb (has w k) then (Raise Mock.not_found, w)
    else match children w k with
         | [] => (Ok tt, mkStore (List.filter (fun c => negb (bool_decide (c = k))) (keys w))
                                 (handles w))
         | _ :: _ => (Raise access_denied, w)
         end
}.

Definition fresh (ks : list (list string)) : State store :=
  mkState Memo_empty (mkStore ks []) [].

End Tree.

(** * Properties *)

(** ** Splitting and joining *)

Module PyStrFacts.
Import PyStr.

Lemma split_nonempty sep s : split sep s <> [].
Proof.
  destruct s as [|c s]; simpl; [discriminate|].
  destruct (Ascii.eqb c sep); [discriminate|].
  destruct (split sep s); discriminate.
Qed.

Lemma join_cons sep w v ws :
  join sep (w :: v :: ws) = w +:+ String sep (join sep (v :: ws)).
Proof. reflexivity. Qed.

Lemma join_split sep s : join sep (split sep s) = s.
Proof.
  induction s as [|c s IH]; simpl; [reflexivity|].
  destruct (Ascii.eqb_spec c sep) as [->|Hc].
  - pose proof (split_nonempty sep s) as Hne.
    destruct (split sep s) as [|w ws]; [congruence|].
    rewrite join_cons, IH. reflexivity.
  - pose proof (split_nonempty sep s) as Hne.
    destruct (split sep s) as [|w ws]; [congruence|].
    destruct ws as [|v ws]; simpl in *; [congruence|].
    rewrite <- IH. reflexivity.
Qed.

Lemma split_lacks sep s :
  Forall (fun w => lacks sep w = true) (split sep s).
Proof.
  induction s as [|c s IH]; simpl.
  - constructor; [reflexivity|constructor].
  - destruct (Ascii.eqb c sep) eqn:Hc.
    + constructor; [reflexivity|exact IH].
    + destruct (split sep s) as [|w ws].
      * constructor; [simpl; rewrite Hc; reflexivity|constructor].
      * inversion IH; subst. constructor; [|assumption].
        simpl. rewrite Hc. simpl. assumption.
Qed.

Lemma split_single sep w : lacks sep w = true -> split sep w = [w].
Proof.
  induction w as [|c w IH]; simpl; [reflexivity|].
  destruct (Ascii.eqb c sep); simpl; [discriminate|].
  intros Hw. rewrite (IH Hw). reflexivity.
Qed.

Lemma split_app sep s t :
  split sep (s +:+ String sep t) = split sep s ++ split sep t.
Proof.
  induction s as [|c s IH]; simpl.
  - rewrite Ascii.eqb_refl. reflexivity.
  - destruct (Ascii.eqb c sep).
    + rewrite IH. reflexivity.
    + rewrite IH.
      pose proof (split_nonempty sep s) as Hne.
      destruct (split sep s); [congruence|reflexivity].
Qed.

Lemma split_join sep l :
  l <> [] ->
  Forall (fun w => lacks sep w = true) l ->
  split sep (join sep l) = l.
Proof.
  induction l as [|w ws IH]; [congruence|].
  intros _ Hall. inversion Hall as [|? ? Hw Hws]; subst.
  destruct ws as [|v ws].
  - simpl. apply split_single. assumption.
  - rewrite join_cons, split_app, (split_single _ _ Hw).
    rewrite IH; [reflexivity|discriminate|assumption].
Qed.

(** Appending a separator and a further component adds that component. *)
Lemma split_snoc sep s w :
  lacks sep w = true ->
  split sep (s +:+ String sep w) = split sep s ++ [w].
Proof.
  intros Hw. rewrite split_app, (split_single _ _ Hw). reflexivity.
Qed.

(** The first component is how the string starts. *)
Lemma split_head sep s w ws :
  split sep s = w :: ws -> exists t, s = w +:+ t.
Proof.
  revert w ws. induction s as [|c s IH]; simpl; intros w ws Hs.
  - inversion Hs; subst. exists EmptyString. reflexivity.
  - destruct (Ascii.eqb c sep).
    + inversion Hs; subst. eexists. reflexivity.
    + destruct (split sep s) as [|v vs] eqn:Hv.
      * inversion Hs; subst. exists s. reflexivity.
      * inversion Hs; subst. destruct (IH _ _ eq_refl) as [t ->].
        exists t. reflexivity.
Qed.

End PyStrFacts.

(** ** The constructor *)

Lemma keys_lookup s k :
  REGISTRY_KEYS !! s = Some k -> (s, k) ∈ REGISTRY_KEYS_items.
Proof. unfold REGISTRY_KEYS. apply elem_of_list_to_map_2. Qed.

(** An alias of the table is upper case and starts with an H. *)
Lemma alias_shape s k :
  REGISTRY_KEYS !! s = Some k ->
  PyStr.upper s = s /\ exists t, s = String "H" t.
Proof.
  intros Hin%keys_lookup. unfold REGISTRY_KEYS_items in Hin.
  repeat (apply elem_of_cons in Hin as [Hin|Hin];
          [inversion Hin; subst; split; [reflexivity|eexists; reflexivity]|]).
  apply elem_of_nil in Hin. contradiction.
Qed.

(** A raw path whose first component is an alias as the table writes it
    is accepted as it stands. *)
Lemma init_of_head raw vn comp first rest k :
  split_path raw = first :: rest ->
  REGISTRY_KEYS !! first = Some k ->
  __init__ raw vn comp = Ok (mkRegistryPath (normalize_computer comp) vn raw k).
Proof.
  intros Hs Hk. destruct (alias_shape _ _ Hk) as [Hup [t Ht]].
  destruct (PyStrFacts.split_head _ _ _ _ Hs) as [u Hu].
  unfold __init__.
  assert (Hraw : raw = String "H" (t +:+ u)) by (rewrite Hu, Ht; reflexivity).
  assert (Hne : PyStr.is_empty raw = false) by (rewrite Hraw; reflexivity).
  assert (Hpre : PyStr.startswith "computer" (PyStr.lower raw) = false)
    by (rewrite Hraw; reflexivity).
  rewrite Hne, Hpre, Hs. unfold _parse_raw_path. rewrite Hup, Hk. reflexivity.
Qed.

Lemma init_inv raw vn comp p :
  __init__ raw vn comp = Ok p ->
  exists raw' first rest,
    p = mkRegistryPath (normalize_computer comp) vn raw' (_key p) /\
    split_path raw' = first :: rest /\
    REGISTRY_KEYS !! first = Some (_key p).
Proof.
  unfold __init__. destruct (PyStr.is_empty raw); [discriminate|].
  set (raw' := if PyStr.startswith _ _ then _ else _).
  unfold _parse_raw_path.
  destruct (split_path raw') as [|first rest] eqn:Hs; [discriminate|].
  destruct (REGISTRY_KEYS !! PyStr.upper first); [|discriminate].
  destruct (REGISTRY_KEYS !! first) as [k|] eqn:Hk; [|discriminate].
  intros Hp. inversion Hp; subst. exists raw', first, rest. auto.
Qed.

Lemma lstrip_idem c s : PyStr.lstrip c (PyStr.lstrip c s) = PyStr.lstrip c s.
Proof.
  induction s as [|a s IH]; simpl; [reflexivity|].
  destruct (Ascii.eqb a c) eqn:Ha; [exact IH|].
  simpl. rewrite Ha. reflexivity.
Qed.

Lemma normalize_computer_idem c :
  normalize_computer (normalize_computer c) = normalize_computer c.
Proof.
  destruct c as [c|]; [|reflexivity]. unfold normalize_computer.
  destruct (String.eqb (PyStr.lower c) "computer"); [reflexivity|].
  change ("\\" +:+ PyStr.lstrip PyStr.backslash c)
    with (String "\" (String "\" (PyStr.lstrip PyStr.backslash c))).
  simpl. rewrite lstrip_idem. reflexivity.
Qed.

(** What the constructor guarantees of its result. *)
Lemma constructed_inv p :
  constructed p ->
  normalize_computer (computer p) = computer p /\
  exists first rest,
    _path_split p = first :: rest /\ REGISTRY_KEYS !! first = Some (_key p).
Proof.
  intros (raw & vn & comp & Hp).
  destruct (init_inv _ _ _ _ Hp) as (raw' & first & rest & Hp' & Hs & Hk).
  rewrite Hp'. cbn. split; [apply normalize_computer_idem|].
  exists first, rest. split; assumption.
Qed.

Lemma with_value_name_constructed p v :
  constructed p -> with_value_name p v = Ok (valued p v).
Proof.
  intros Hc. destruct (constructed_inv _ Hc) as (Hn & first & rest & Hs & Hk).
  unfold with_value_name. rewrite (init_of_head _ _ _ _ _ _ Hs Hk), Hn.
  reflexivity.
Qed.

Lemma valued_constructed p v : constructed p -> constructed (valued p v).
Proof.
  intros Hc. exists (_raw_path p), v, (computer p).
  apply with_value_name_constructed. assumption.
Qed.

(** The raw path the [/] operator hands to the constructor is accepted,
    whatever the child's name. *)
Lemma init_child p other :
  constructed p ->
  __init__ (join_path (_path_split p) +:+ "\" +:+ other) None (computer p)
  = Ok (child p other).
Proof.
  intros Hc. destruct (constructed_inv _ Hc) as (Hn & first & rest & Hs & Hk).
  unfold join_path, _path_split, split_path in *.
  rewrite PyStrFacts.join_split.
  assert (Hsplit : split_path (_raw_path p +:+ "\" +:+ other)
                   = first :: (rest ++ split_path other)).
  { unfold split_path. change ("\" +:+ other) with (String PyStr.backslash other).
    rewrite PyStrFacts.split_app, Hs. reflexivity. }
  rewrite (init_of_head _ _ _ _ _ _ Hsplit Hk), Hn. reflexivity.
Qed.

(** ** Hashing *)

Lemma str_code_pos s : (1 <= str_code s)%N.
Proof. induction s; simpl; lia. Qed.

Lemma str_code_inj s t : str_code s = str_code t -> s = t.
Proof.
  revert t. induction s as [|a s IH]; intros [|b t]; simpl; intros Heq.
  - reflexivity.
  - pose proof (str_code_pos t). lia.
  - pose proof (str_code_pos s). lia.
  - pose proof (N_ascii_bounded a). pose proof (N_ascii_bounded b).
    assert (N_of_ascii a = N_of_ascii b /\ str_code s = str_code t) as [Ha Hs] by lia.
    rewrite (IH _ Hs). f_equal.
    rewrite <- (ascii_N_embedding a), <- (ascii_N_embedding b), Ha. reflexivity.
Qed.

Lemma py_hash_inj s t : py_hash s = py_hash t -> s = t.
Proof. unfold py_hash. intros Heq. apply str_code_inj. lia. Qed.

(** Two paths are equal exactly when they print the same. *)
Lemma eq_iff_repr a b : __eq__ a b = true <-> __repr__ a = __repr__ b.
Proof.
  unfold __eq__, __hash__. rewrite Z.eqb_eq. split.
  - apply py_hash_inj.
  - intros ->. reflexivity.
Qed.

Lemma eq_self p : __eq__ p p = true.
Proof. apply eq_iff_repr. reflexivity. Qed.

(** ** The memo tables *)

Module LruFacts.

Lemma find_eq {V} p (c : Lru.t V) k v :
  Lru.find p c = Some (k, v) -> __eq__ k p = true.
Proof.
  induction c as [|[k' v'] c IH]; simpl; [discriminate|].
  destruct (__eq__ k' p) eqn:Hk; [|exact IH].
  intros Hf. inversion Hf; subst. assumption.
Qed.

(** A hit leaves the entry where the next lookup finds it. *)
Lemma get_touch {V} p (c : Lru.t V) : Lru.get p (Lru.touch p c) = Lru.get p c.
Proof.
  unfold Lru.touch, Lru.get. destruct (Lru.find p c) as [[k v]|] eqn:Hf.
  - simpl. rewrite (find_eq _ _ _ _ Hf). reflexivity.
  - rewrite Hf. reflexivity.
Qed.

(** A result stored after a miss is the one the next lookup returns. *)
Lemma get_add {V} p (v : V) (c : Lru.t V) :
  Lru.get p c = None -> Lru.get p (Lru.add p v c) = Some v.
Proof.
  unfold Lru.add, Lru.get. destruct (Lru.find p c) eqn:Hf; [discriminate|].
  intros _. simpl. rewrite eq_self. reflexivity.
Qed.

Lemma get_add_inv {V} p (v v' : V) (c : Lru.t V) :
  Lru.get p (Lru.add p v c) = Some v' -> v' = v \/ Lru.get p c = Some v'.
Proof.
  unfold Lru.add, Lru.get. destruct (Lru.find p c) eqn:Hf.
  - rewrite Hf. auto.
  - simpl. rewrite eq_self. simpl. intros Hv. inversion Hv. auto.
Qed.

Lemma holds_touch {V} p (c : Lru.t V) P : holds c p P -> holds (Lru.touch p c) p P.
Proof. unfold holds. intros Hc v. rewrite get_touch. apply Hc. Qed.

Lemma holds_add {V} p (v : V) (c : Lru.t V) (P : V -> Prop) :
  P v -> holds c p P -> holds (Lru.add p v c) p P.
Proof.
  unfold holds. intros Hv Hc v' Hget.
  destruct (get_add_inv _ _ _ _ Hget) as [->|Hold]; auto.
Qed.

Lemma holds_empty {V} p (P : V -> Prop) : holds [] p P.
Proof. intros v Hv. discriminate. Qed.

End LruFacts.

Lemma coherent_empty p : coherent p Memo_empty.
Proof. repeat split; apply LruFacts.holds_empty. Qed.

(** A memoised property read on tables coherent for [p]: if the body
    computes a value satisfying the clause [P] of its table, so does the
    wrapped property, and the tables stay coherent. *)
Lemma lru_cache_coherent {V} (s : slot V) p (body : St Memo V) (P : V -> Prop) m :
  coherent p m ->
  (forall m0, coherent p m0 -> holds (slot_get s m0) p P) ->
  (forall m0 c, coherent p m0 -> holds c p P -> coherent p (slot_set s c m0)) ->
  (forall m0, coherent p m0 -> exists v m1, body m0 = (Ok v, m1) /\ P v /\ coherent p m1) ->
  exists v m', lru_cache s p body m = (Ok v, m') /\ P v /\ coherent p m'.
Proof.
  intros Hm Hget Hset Hbody. unfold lru_cache.
  destruct (Lru.get p (slot_get s m)) as [v|] eqn:Hv.
  - exists v. eexists. split; [reflexivity|]. split.
    + exact (Hget _ Hm _ Hv).
    + apply Hset; [assumption|]. apply LruFacts.holds_touch, Hget, Hm.
  - destruct (Hbody _ Hm) as (v & m1 & -> & HP & Hm1).
    exists v. eexists. split; [reflexivity|]. split; [assumption|].
    apply Hset; [assumption|]. apply LruFacts.holds_add; [assumption|].
    apply Hget, Hm1.
Qed.

Ltac coherent_slot :=
  intros; unfold coherent in *; cbn in *; intuition.

(** *** [parts] *)

Lemma parts_coherent p m :
  coherent p m ->
  exists m', parts p m = (Ok (parts_body p), m') /\ coherent p m'.
Proof.
  intros Hm.
  destruct (lru_cache_coherent parts_slot p (ret (parts_body p))
              (eq (parts_body p)) m Hm) as (v & m' & Hrun & <- & Hm').
  - coherent_slot.
  - coherent_slot.
  - intros m0 Hm0. exists (parts_body p), m0. auto.
  - exists m'. auto.
Qed.

(** *** [subkey] *)

Lemma clamp_nonneg (n : nat) (i : Z) :
  0 <= i -> PySeq.clamp (Z.of_nat n) i = Nat.min n (Z.to_nat i).
Proof. intros Hi. unfold PySeq.clamp. destruct (Z.ltb_spec i 0); lia. Qed.

Lemma clamp_neg (n : nat) (i : Z) :
  0 < i -> PySeq.clamp (Z.of_nat n) (- i) = (n - Z.to_nat i)%nat.
Proof. intros Hi. unfold PySeq.clamp. destruct (Z.ltb_spec (- i) 0); lia. Qed.

Lemma slice_tail {A} (l : list A) : PySeq.slice (Some 1) None l = tail l.
Proof.
  unfold PySeq.slice. rewrite clamp_nonneg by lia.
  destruct l as [|x l]; [reflexivity|].
  cbn [length]. replace (Nat.min (S (length l)) (Z.to_nat 1)) with 1%nat by lia.
  cbn [skipn tail]. replace (S (length l) - 1)%nat with (length l) by lia.
  apply firstn_all.
Qed.

Lemma slice_inner {A} (l : list A) (v : A) :
  PySeq.slice (Some 1) (Some (-1)) (l ++ [v]) = tail l.
Proof.
  unfold PySeq.slice.
  rewrite (clamp_nonneg _ 1) by lia. rewrite (clamp_neg _ 1) by lia.
  rewrite length_app. cbn [length].
  destruct l as [|x l]; [reflexivity|].
  cbn [length app].
  replace (Nat.min (S (length l) + 1) (Z.to_nat 1)) with 1%nat by lia.
  cbn [skipn tail].
  replace (S (length l) + 1 - Z.to_nat 1 - 1)%nat with (length l) by lia.
  rewrite drop_0. apply take_app_length.
Qed.

(** [l[:-i]] keeps all but the last [i] elements. *)
Lemma slice_drop_last {A} (l : list A) (i : Z) :
  0 < i -> PySeq.slice None (Some (- i)) l = firstn (length l - Z.to_nat i) l.
Proof.
  intros Hi. unfold PySeq.slice. rewrite (clamp_neg _ i Hi).
  rewrite Nat.sub_0_r. reflexivity.
Qed.

Lemma subkey_coherent p m :
  coherent p m ->
  exists m', subkey p m = (Ok (subkey_value p), m') /\ coherent p m'.
Proof.
  intros Hm. unfold subkey.
  match goal with |- context [lru_cache _ _ ?b] => set (body := b) end.
  destruct (lru_cache_coherent subkey_slot p body (eq (subkey_value p)) m Hm)
    as (v & m' & Hrun & <- & Hm').
  - coherent_slot.
  - coherent_slot.
  - intros m0 Hm0. destruct (parts_coherent _ _ Hm0) as (m1 & Hp & Hm1).
    exists (subkey_value p), m1. split; [|auto].
    unfold body, bind, subkey_value, parts_body in *.
    destruct (value_name p); rewrite Hp; cbn [ret].
    + rewrite slice_inner. reflexivity.
    + rewrite slice_tail. reflexivity.
  - exists m'. auto.
Qed.

(** [subkey] never raises, whatever the tables hold. *)
Lemma parts_total p m : exists ps m', parts p m = (Ok ps, m').
Proof.
  unfold parts, lru_cache.
  destruct (Lru.get p (slot_get parts_slot m)); eexists; eexists; reflexivity.
Qed.

Lemma subkey_total p m : exists sk m', subkey p m = (Ok sk, m').
Proof.
  unfold subkey, lru_cache.
  destruct (Lru.get p (slot_get subkey_slot m)); [eexists; eexists; reflexivity|].
  destruct (parts_total p m) as (ps & m1 & Hp). unfold bind.
  destruct (value_name p); rewrite Hp; eexists; eexists; reflexivity.
Qed.

(** *** [parents] *)

Lemma bind_Ok {S A B} (m : St S A) (k : A -> St S B) st a st' :
  m st = (Ok a, st') -> bind m k st = k a st'.
Proof. unfold bind. intros ->. reflexivity. Qed.

Lemma bind_Raise {S A B} (m : St S A) (k : A -> St S B) st e st' :
  m st = (Raise e, st') -> bind m k st = (Raise e, st').
Proof. unfold bind. intros ->. reflexivity. Qed.

Lemma for_each_map {S A B} (I : S -> Prop) (l : list A) (f : A -> St S B)
      (g : A -> B) st :
  I st ->
  (forall x st0, x ∈ l -> I st0 -> exists st1, f x st0 = (Ok (g x), st1) /\ I st1) ->
  exists st', for_each l f st = (Ok (map g l), st') /\ I st'.
Proof.
  revert st. induction l as [|x l IH]; intros st Hst Hf.
  - exists st. split; [reflexivity|assumption].
  - destruct (Hf x st) as (st1 & Hx & Hst1); [left|assumption|].
    destruct (IH st1 Hst1) as (st2 & Hl & Hst2).
    { intros y st0 Hy. apply Hf. right. assumption. }
    exists st2. split; [|assumption].
    cbn [for_each map].
    rewrite (bind_Ok _ _ _ _ _ Hx), (bind_Ok _ _ _ _ _ Hl). reflexivity.
Qed.

Lemma range_from_one (n : nat) :
  PySeq.range 1 (Z.of_nat n) = map Z.of_nat (seq 1 (n - 1)).
Proof.
  unfold PySeq.range.
  replace (Z.to_nat (Z.of_nat n - 1)) with (n - 1)%nat by lia.
  rewrite <- seq_shift, map_map. apply map_ext. intros k. lia.
Qed.

Lemma range_from_zero (n : Z) :
  PySeq.range 0 n = map Z.of_nat (seq 0 (Z.to_nat n)).
Proof.
  unfold PySeq.range. rewrite Z.sub_0_r. apply map_ext. intros k. lia.
Qed.

Lemma parts_body_length p :
  length (parts_body p)
  = match value_name p with
    | None => length (components p)
    | Some _ => S (length (components p))
    end.
Proof.
  unfold parts_body, components. destruct (value_name p); [|reflexivity].
  rewrite length_app. cbn. lia.
Qed.

Lemma take_parts_body p k :
  (k <= length (components p))%nat ->
  firstn k (parts_body p) = firstn k (components p).
Proof.
  intros Hk. unfold parts_body, components in *.
  destruct (value_name p); [|reflexivity]. apply take_app_le. assumption.
Qed.

(** The parts of a constructed path start with its alias, and keeping a
    non-empty prefix of the components gives the raw path of a path the
    constructor accepts. *)
Lemma init_ancestor p k :
  constructed p ->
  (1 <= k <= length (components p))%nat ->
  __init__ (join_path (firstn k (parts_body p))) None None = Ok (ancestor p k).
Proof.
  intros Hc [Hk1 Hk2].
  destruct (constructed_inv _ Hc) as (_ & first & rest & Hs & Hkey).
  assert (Hsplit : split_path (join_path (firstn k (parts_body p)))
                   = firstn k (components p)).
  { rewrite take_parts_body by assumption. unfold split_path, join_path.
    apply PyStrFacts.split_join.
    - unfold components in *. rewrite Hs in *. destruct k; [lia|discriminate].
    - apply Forall_take, PyStrFacts.split_lacks. }
  unfold components in Hsplit. rewrite Hs in Hsplit.
  destruct k as [|k]; [lia|]. cbn [firstn] in Hsplit.
  rewrite (init_of_head _ _ _ _ _ _ Hsplit Hkey). reflexivity.
Qed.

Lemma parents_coherent p m :
  constructed p ->
  coherent p m ->
  exists m', parents p m = (Ok (ancestors p), m') /\ coherent p m'.
Proof.
  intros Hc Hm. unfold parents.
  match goal with |- context [lru_cache _ _ ?b] => set (body := b) end.
  destruct (lru_cache_coherent parents_slot p body (eq (ancestors p)) m Hm)
    as (v & m' & Hrun & <- & Hm').
  - coherent_slot.
  - coherent_slot.
  - intros m0 Hm0. destruct (parts_coherent _ _ Hm0) as (m1 & Hp & Hm1).
    unfold body. rewrite (bind_Ok _ _ _ _ _ Hp), range_from_one.
    set (n := length (parts_body p)).
    destruct (for_each_map (coherent p) (map Z.of_nat (seq 1 (n - 1)))
                (fun i => ps <- parts p ;;
                   lift (__init__ (join_path (PySeq.slice None (Some (- i)) ps)) None None))
                (fun i => ancestor p (n - Z.to_nat i)) m1 Hm1)
      as (m2 & Hrun & Hm2).
    + intros i m3 Hi Hm3. apply list_elem_of_fmap in Hi as (j & -> & Hj).
      apply list_elem_of_In, in_seq in Hj.
      destruct (parts_coherent _ _ Hm3) as (m4 & Hp4 & Hm4).
      exists m4. split; [|assumption].
      rewrite (bind_Ok _ _ _ _ _ Hp4). unfold lift.
      rewrite slice_drop_last by lia. fold n.
      rewrite init_ancestor; [reflexivity|assumption|].
      pose proof (parts_body_length p) as Hlen. fold n in Hlen.
      destruct (value_name p); lia.
    + exists (ancestors p), m2. split; [|auto]. rewrite Hrun. f_equal. f_equal.
      unfold ancestors. fold n. rewrite map_map. apply map_ext.
      intros j. rewrite Nat2Z.id. reflexivity.
  - exists m'. auto.
Qed.

(** *** [__truediv__] *)

Lemma truediv_coherent p other m :
  constructed p ->
  value_name p = None ->
  coherent p m ->
  exists m', __truediv__ p other m = (Ok (child p other), m') /\ coherent p m'.
Proof.
  intros Hc Hv Hm. unfold __truediv__. rewrite Hv.
  destruct (parts_coherent _ _ Hm) as (m1 & Hp & Hm1).
  exists m1. split; [|assumption].
  rewrite (bind_Ok _ _ _ _ _ Hp). unfold lift, parts_body. rewrite Hv.
  rewrite init_child by assumption. reflexivity.
Qed.

Lemma child_constructed p other : constructed p -> constructed (child p other).
Proof.
  intros Hc. eexists _, None, (computer p). apply init_child. assumption.
Qed.

(** *** [name] and [parent] *)

Lemma last_nonempty {A} (l : list A) d : l <> [] -> last l = Some (List.last l d).
Proof.
  induction l as [|x l IH]; [congruence|]. intros _.
  destruct l as [|y l]; [reflexivity|].
  change (last (y :: l) = Some (List.last (y :: l) d)). apply IH. discriminate.
Qed.

Lemma name_coherent p m :
  coherent p m ->
  exists m', name p m = (Ok (name_value p), m') /\ coherent p m'.
Proof.
  intros Hm. unfold name.
  match goal with |- context [lru_cache _ _ ?b] => set (body := b) end.
  destruct (lru_cache_coherent name_slot p body (eq (name_value p)) m Hm)
    as (v & m' & Hrun & <- & Hm').
  - coherent_slot.
  - coherent_slot.
  - intros m0 Hm0. unfold body, name_value.
    destruct (value_name p) as [v|] eqn:Hv.
    + exists v, m0. auto.
    + destruct (parts_coherent _ _ Hm0) as (m1 & Hp & Hm1).
      exists (List.last (_path_split p) EmptyString), m1.
      rewrite (bind_Ok _ _ _ _ _ Hp). unfold parts_body. rewrite Hv.
      rewrite (last_nonempty _ EmptyString) by apply PyStrFacts.split_nonempty.
      auto.
  - exists m'. auto.
Qed.

Lemma parent_coherent p m q :
  constructed p ->
  coherent p m ->
  head (ancestors p) = Some q ->
  exists m', parent p m = (Ok q, m') /\ coherent p m'.
Proof.
  intros Hc Hm Hq. unfold parent.
  match goal with |- context [lru_cache _ _ ?b] => set (body := b) end.
  destruct (lru_cache_coherent parent_slot p body
              (fun q' => head (ancestors p) = Some q') m Hm)
    as (v & m' & Hrun & Hv & Hm').
  - coherent_slot.
  - coherent_slot.
  - intros m0 Hm0. destruct (parents_coherent _ _ Hc Hm0) as (m1 & Hp & Hm1).
    exists q, m1. unfold body. rewrite (bind_Ok _ _ _ _ _ Hp).
    destruct (ancestors p) as [|q' qs]; [discriminate|].
    inversion Hq; subst. auto.
  - exists m'. rewrite Hq in Hv. inversion Hv; subst. auto.
Qed.

(** ** The path model: the claims *)

(** C1 (the code departs from the claim).  Root resolution is meant to be
    case-insensitive, and the membership test of [_parse_raw_path] is: it
    upper-cases the leading component.  The lookup that follows takes the
    component as written, so an alias in another letter case passes the
    test and then fails the lookup with [KeyError] -- construction neither
    succeeds nor reports that the root was not found.  Only the spelling
    of the table is accepted. *)
Theorem root_lookup_is_case_sensitive :
  __init__ "HKLM" None None = Ok (root_only "HKLM" HKEY_LOCAL_MACHINE) /\
  __init__ "hklm" None None = Raise (KeyError "hklm") /\
  __init__ "Hklm\Software" None None = Raise (KeyError "Hklm") /\
  __init__ "hkey_local_machine" None None = Raise (KeyError "hkey_local_machine").
Proof. repeat split; vm_compute; reflexivity. Qed.

(** What the constructor does with the leading component, in general:
    an alias in the table's spelling resolves, any other spelling of an
    alias raises [KeyError], and a component that is no alias in any
    letter case raises [HKeyNotFoundError]. *)
Lemma parse_raw_path_cases r first rest :
  match REGISTRY_KEYS !! PyStr.upper first, REGISTRY_KEYS !! first with
  | Some _, Some k => _parse_raw_path r (first :: rest) = Ok k
  | Some _, None => _parse_raw_path r (first :: rest) = Raise (KeyError first)
  | None, _ => _parse_raw_path r (first :: rest) = Raise (HKeyNotFoundError r)
  end.
Proof.
  unfold _parse_raw_path.
  destruct (REGISTRY_KEYS !! PyStr.upper first);
    destruct (REGISTRY_KEYS !! first); reflexivity.
Qed.

(** The constructor reports a root that was not found only for a leading
    component that is no alias in any letter case. *)
Lemma init_HKeyNotFound raw vn comp msg :
  __init__ raw vn comp = Raise (HKeyNotFoundError msg) ->
  exists raw' first rest,
    split_path raw' = first :: rest /\
    REGISTRY_KEYS !! PyStr.upper first = None.
Proof.
  unfold __init__. destruct (PyStr.is_empty raw); [discriminate|].
  set (raw' := if PyStr.startswith _ _ then _ else _).
  unfold _parse_raw_path.
  destruct (split_path raw') as [|first rest] eqn:Hs; [discriminate|].
  destruct (REGISTRY_KEYS !! PyStr.upper first) eqn:Hup.
  - destruct (REGISTRY_KEYS !! first); discriminate.
  - intros _. exists raw', first, rest. auto.
Qed.

(** Every alias of the table, spelled as the table spells it, resolves to
    its root. *)
Lemma init_alias alias key vn comp :
  (alias, key) ∈ REGISTRY_KEYS_items ->
  __init__ alias vn comp = Ok (mkRegistryPath (normalize_computer comp) vn alias key).
Proof.
  intros Hin. unfold REGISTRY_KEYS_items in Hin.
  repeat (apply elem_of_cons in Hin as [Hin|Hin];
          [inversion Hin; subst;
           eapply init_of_head; vm_compute; reflexivity|]).
  apply elem_of_nil in Hin. contradiction.
Qed.

(** C8.  The path built from [HKLM\Other\Place\ForMe] without a value name:
    its name is [ForMe], its subkey -- the key [_get_subkey_handle] opens --
    is [Other\Place\ForMe], and its parts are the four components.  This
    holds on any memo tables coherent for the path, the empty ones of a
    fresh interpreter among them. *)
Theorem scenario_name_subkey_parts (m : Memo) :
  let p := mkRegistryPath None None "HKLM\Other\Place\ForMe" HKEY_LOCAL_MACHINE in
  coherent p m ->
  __init__ "HKLM\Other\Place\ForMe" None None = Ok p /\
  run (name p) m = Ok "ForMe"%string /\
  run (subkey p) m = Ok "Other\Place\ForMe"%string /\
  run (parts p) m = Ok ["HKLM"; "Other"; "Place"; "ForMe"]%string.
Proof.
  intros p Hm. split; [vm_compute; reflexivity|]. unfold run.
  destruct (name_coherent _ _ Hm) as (m1 & -> & _).
  destruct (subkey_coherent _ _ Hm) as (m2 & -> & _).
  destruct (parts_coherent _ _ Hm) as (m3 & -> & _).
  repeat split.
Qed.

Lemma scenario_name_subkey_parts_witness :
  coherent (mkRegistryPath None None "HKLM\Other\Place\ForMe" HKEY_LOCAL_MACHINE)
           Memo_empty /\
  run (name (mkRegistryPath None None "HKLM\Other\Place\ForMe" HKEY_LOCAL_MACHINE))
      Memo_empty = Ok "ForMe"%string.
Proof.
  split; [apply coherent_empty|].
  apply (scenario_name_subkey_parts Memo_empty). apply coherent_empty.
Defined.

(** *** The ancestor chain *)

Lemma ancestors_length p : length (ancestors p) = (length (parts_body p) - 1)%nat.
Proof. unfold ancestors. rewrite length_map, length_seq. reflexivity. Qed.

Lemma ancestors_lookup p (k : nat) q :
  ancestors p !! k = Some q ->
  (S k < length (parts_body p))%nat /\
  q = ancestor p (length (parts_body p) - S k).
Proof.
  unfold ancestors. rewrite list_lookup_fmap. intros Hq.
  destruct (seq 1 (length (parts_body p) - 1) !! k) as [i|] eqn:Hi; [|discriminate].
  apply lookup_seq in Hi as [-> Hk]. inversion Hq; subst. split; [lia|reflexivity].
Qed.

Lemma ancestors_last p q :
  last (ancestors p) = Some q -> q = ancestor p 1.
Proof.
  unfold ancestors. rewrite fmap_last.
  destruct (length (parts_body p) - 1)%nat as [|n] eqn:Hn; [discriminate|].
  rewrite seq_S, last_snoc. cbn. intros Hq. inversion Hq; subst. f_equal. lia.
Qed.

(** An ancestor that keeps [j] components has exactly those as its parts. *)
Lemma ancestor_parts p (j : nat) :
  (1 <= j <= length (components p))%nat ->
  parts_body (ancestor p j) = firstn j (parts_body p).
Proof.
  intros [Hj1 Hj2]. unfold parts_body at 1, ancestor, _path_split. cbn.
  unfold split_path, join_path. apply PyStrFacts.split_join.
  - pose proof (PyStrFacts.split_nonempty PyStr.backslash (_raw_path p)) as Hne.
    rewrite take_parts_body by assumption. unfold components, _path_split, split_path in *.
    destruct (PyStr.split PyStr.backslash (_raw_path p)); [congruence|].
    destruct j; [lia|discriminate].
  - rewrite take_parts_body by assumption.
    apply Forall_take, PyStrFacts.split_lacks.
Qed.

Lemma ancestor_constructed p (j : nat) :
  constructed p -> (1 <= j <= length (components p))%nat -> constructed (ancestor p j).
Proof.
  intros Hc Hj. eexists _, None, None. apply init_ancestor; assumption.
Qed.

Lemma ancestor_root p alias :
  head (components p) = Some alias -> ancestor p 1 = root_only alias (_key p).
Proof.
  unfold ancestor, root_only, parts_body, components.
  destruct (_path_split p) as [|w ws]; [discriminate|].
  intros Hw. inversion Hw; subst. destruct (value_name p); reflexivity.
Qed.

Lemma components_segments p :
  exists alias, components p = alias :: segments p.
Proof.
  unfold segments, components, _path_split, split_path.
  pose proof (PyStrFacts.split_nonempty PyStr.backslash (_raw_path p)) as Hne.
  destruct (PyStr.split PyStr.backslash (_raw_path p)) as [|alias ws]; [congruence|].
  exists alias. reflexivity.
Qed.

(** The ancestor that keeps the first component alone is a root alone:
    its raw path is the alias, it has no segments and no value name. *)
Lemma ancestor_root_only p alias :
  head (components p) = Some alias ->
  _raw_path (ancestor p 1) = alias /\
  segments (ancestor p 1) = [] /\
  value_name (ancestor p 1) = None /\
  _key (ancestor p 1) = _key p.
Proof.
  intros Ha. rewrite (ancestor_root _ _ Ha). unfold root_only. cbn.
  repeat split. unfold segments, components, _path_split, split_path. cbn.
  destruct (components_segments p) as (a & Hs). rewrite Hs in Ha. inversion Ha; subst.
  assert (Hl : PyStr.lacks PyStr.backslash alias = true).
  { pose proof (PyStrFacts.split_lacks PyStr.backslash (_raw_path p)) as Hall.
    unfold components, _path_split, split_path in Hs. rewrite Hs in Hall.
    inversion Hall; subst. assumption. }
  rewrite (PyStrFacts.split_single _ _ Hl). reflexivity.
Qed.

(** C3, as the code has it.  The segments of a path are the subkey
    names after its root alias.  For a constructed path, read while the
    memo tables are coherent for it, [parents] returns the chain of its
    ancestors, nearest first: as many as the path has segments when
    there is no value name, and one more when there is one.  The element
    at position [k] is a constructed key path with the root of the path,
    whose parts are the parts of the path without the last [k + 1]: each
    element is strictly shorter than the one before, the first strictly
    shorter than the path.  The chain ends at a root alone: the path of
    the alias, without segments.  The ancestors of a path on the local
    machine are on the local machine; of the host of the ancestors of a
    path with a host nothing is said here. *)
Theorem parents_chain raw vn comp p m :
  __init__ raw vn comp = Ok p ->
  coherent p m ->
  exists chain,
    run (parents p) m = Ok chain /\
    length chain = match value_name p with
                   | None => length (segments p)
                   | Some _ => S (length (segments p))
                   end /\
    (forall (k : nat) q,
        chain !! k = Some q ->
        constructed q /\ value_name q = None /\ _key q = _key p /\
        parts_body q = firstn (length (parts_body p) - S k) (parts_body p) /\
        length (parts_body q) = (length (parts_body p) - S k)%nat /\
        (length (parts_body q) < length (parts_body p))%nat /\
        (computer p = None -> computer q = None)) /\
    (forall (k : nat) q q',
        chain !! k = Some q -> chain !! S k = Some q' ->
        (length (parts_body q') < length (parts_body q))%nat) /\
    (forall q, last chain = Some q ->
               head (components p) = Some (_raw_path q) /\
               segments q = [] /\ value_name q = None /\ _key q = _key p).
Proof.
  intros Hp Hm.
  assert (Hc : constructed p) by (exists raw, vn, comp; exact Hp).
  destruct (parents_coherent _ _ Hc Hm) as (m' & Hrun & _).
  exists (ancestors p). unfold run. rewrite Hrun. cbn [fst].
  pose proof (parts_body_length p) as Hlen.
  destruct (components_segments p) as (alias & Hs).
  assert (Hseg : length (components p) = S (length (segments p))).
  { rewrite Hs. reflexivity. }
  assert (Hk : forall (k : nat) q,
             ancestors p !! k = Some q ->
             constructed q /\ value_name q = None /\ _key q = _key p /\
             parts_body q = firstn (length (parts_body p) - S k) (parts_body p) /\
             length (parts_body q) = (length (parts_body p) - S k)%nat).
  { intros k q Hq. apply ancestors_lookup in Hq as [Hk ->].
    assert (1 <= length (parts_body p) - S k <= length (components p))%nat
      by (destruct (value_name p); lia).
    split; [apply ancestor_constructed; assumption|].
    split; [reflexivity|]. split; [reflexivity|].
    rewrite ancestor_parts by assumption. split; [reflexivity|].
    rewrite length_take. lia. }
  split; [reflexivity|]. split.
  { rewrite ancestors_length. destruct (value_name p); lia. }
  split.
  { intros k q Hq. pose proof (ancestors_lookup _ _ _ Hq) as [Hlt Heq].
    destruct (Hk _ _ Hq) as (H1 & H2 & H3 & H4 & H5).
    repeat split; try assumption; [lia|]. intros _. rewrite Heq. reflexivity. }
  split.
  { intros k q q' Hq Hq'. pose proof (ancestors_lookup _ _ _ Hq') as [Hlt _].
    destruct (Hk _ _ Hq) as (_ & _ & _ & _ & ->).
    destruct (Hk _ _ Hq') as (_ & _ & _ & _ & ->). lia. }
  intros q Hq. apply ancestors_last in Hq as ->.
  assert (Ha : head (components p) = Some alias) by (rewrite Hs; reflexivity).
  destruct (ancestor_root_only p alias Ha) as (Hraw & Hnone & Hvn & Hkey).
  rewrite Hraw. repeat split; assumption.
Qed.

Lemma parents_chain_witness :
  exists p chain,
    __init__ "HKLM\Other\Place\ForMe" (Some "v"%string) (Some "lol"%string) = Ok p /\
    coherent p Memo_empty /\
    segments p = ["Other"; "Place"; "ForMe"]%string /\
    run (parents p) Memo_empty = Ok chain /\
    length chain = 4%nat.
Proof.
  exists (mkRegistryPath (Some "\\lol"%string) (Some "v"%string)
                         "HKLM\Other\Place\ForMe" HKEY_LOCAL_MACHINE).
  destruct (parents_chain "HKLM\Other\Place\ForMe" (Some "v"%string) (Some "lol"%string)
              (mkRegistryPath (Some "\\lol"%string) (Some "v"%string)
                              "HKLM\Other\Place\ForMe" HKEY_LOCAL_MACHINE) Memo_empty)
    as (chain & Hrun & Hlen & _).
  - vm_compute. reflexivity.
  - apply coherent_empty.
  - exists chain. split; [vm_compute; reflexivity|].
    split; [apply coherent_empty|]. split; [reflexivity|].
    split; [exact Hrun|exact Hlen].
Defined.

(** C3 as stated does not hold: the key path [HKLM\Other\Place\ForMe]
    has the three segments [Other], [Place] and [ForMe], and three
    ancestors, not two; its value path [v] has four, not three. *)
Lemma parents_length_is_not_segments_less_one :
  let p := mkRegistryPath None None "HKLM\Other\Place\ForMe" HKEY_LOCAL_MACHINE in
  __init__ "HKLM\Other\Place\ForMe" None None = Ok p /\
  __init__ "HKLM\Other\Place\ForMe" (Some "v"%string) None = Ok (valued p (Some "v"%string)) /\
  segments p = ["Other"; "Place"; "ForMe"]%string /\
  segments (valued p (Some "v"%string)) = ["Other"; "Place"; "ForMe"]%string /\
  ~ (exists chain, run (parents p) Memo_empty = Ok chain /\
                   length chain = (length (segments p) - 1)%nat) /\
  ~ (exists chain, run (parents (valued p (Some "v"%string))) Memo_empty = Ok chain /\
                   length chain = length (segments p)).
Proof.
  repeat split; try (vm_compute; reflexivity).
  - intros (chain & Hrun & Hlen). vm_compute in Hrun. inversion Hrun; subst.
    vm_compute in Hlen. discriminate.
  - intros (chain & Hrun & Hlen). vm_compute in Hrun. inversion Hrun; subst.
    vm_compute in Hlen. discriminate.
Qed.

(** [parents] after a property of a path that prints the same was
    read: the value path [a] of [HKLM\x] has two ancestors, and one
    once the parts of the key path [HKLM\x -> a] are in the table. *)
Example parents_after_lookalike :
  let key := mkRegistryPath None None "HKLM\x -> a" HKEY_LOCAL_MACHINE in
  let value := mkRegistryPath None (Some "a"%string) "HKLM\x" HKEY_LOCAL_MACHINE in
  __eq__ key value = true /\
  run (parents value) Memo_empty
  = Ok [mkRegistryPath None None "HKLM\x" HKEY_LOCAL_MACHINE;
        mkRegistryPath None None "HKLM" HKEY_LOCAL_MACHINE] /\
  run (_ <- parts key ;; parents value) Memo_empty
  = Ok [mkRegistryPath None None "HKLM" HKEY_LOCAL_MACHINE] /\
  ~ coherent value (snd (parts key Memo_empty)).
Proof.
  repeat split; try (vm_compute; reflexivity).
  intros (Hparts & _). specialize (Hparts ["HKLM"; "x -> a"]%string).
  vm_compute in Hparts. specialize (Hparts eq_refl). discriminate.
Qed.

(** *** Concatenation and parent *)

Lemma string_length_app s t :
  String.length (s +:+ t) = (String.length s + String.length t)%nat.
Proof.
  induction s as [|c s IH]; [reflexivity|].
  change (S (String.length (s +:+ t)) = S (String.length s + String.length t)).
  rewrite IH. reflexivity.
Qed.

Lemma repr_length raw vn comp :
  String.length (repr_of raw vn comp)
  = (16 + String.length raw
     + match vn with Some v => 4 + String.length v | None => 0 end
     + match comp with Some c => 4 + String.length c | None => 0 end)%nat.
Proof.
  unfold repr_of. destruct vn, comp; rewrite !string_length_app; cbn; lia.
Qed.

(** Paths whose printed forms differ in length are not equal. *)
Lemma neq_by_length a b :
  String.length (__repr__ a) <> String.length (__repr__ b) -> __eq__ a b = false.
Proof.
  intros Hlen. destruct (__eq__ a b) eqn:Heq; [|reflexivity].
  apply eq_iff_repr in Heq. rewrite Heq in Hlen. congruence.
Qed.

Lemma child_neq a other :
  value_name a = None -> __eq__ a (child a other) = false.
Proof.
  intros Hv. apply neq_by_length. unfold __repr__, child. cbn. rewrite Hv.
  rewrite !repr_length, !string_length_app. cbn. destruct (computer a); lia.
Qed.

Lemma eq_trans_false k a b :
  __eq__ k a = true -> __eq__ a b = false -> __eq__ k b = false.
Proof. unfold __eq__. rewrite Z.eqb_eq, !Z.eqb_neq. congruence. Qed.

Module LruOther.

(** Reading a property on [a] leaves what the table holds for an
    unequal [b] as it was, or drops it. *)
Lemma get_remove_other {V} a b (c : Lru.t V) :
  __eq__ a b = false -> Lru.get b (Lru.remove a c) = Lru.get b c.
Proof.
  intros Hab. unfold Lru.get. induction c as [|[k v] c IH]; [reflexivity|].
  cbn. destruct (__eq__ k a) eqn:Hka.
  - rewrite (eq_trans_false _ _ _ Hka Hab). reflexivity.
  - cbn. destruct (__eq__ k b); [reflexivity|exact IH].
Qed.

Lemma get_touch_other {V} a b (c : Lru.t V) :
  __eq__ a b = false -> Lru.get b (Lru.touch a c) = Lru.get b c.
Proof.
  intros Hab. unfold Lru.touch.
  destruct (Lru.find a c) as [[k v]|] eqn:Hf; [|reflexivity].
  unfold Lru.get at 1. cbn.
  rewrite (eq_trans_false _ _ _ (LruFacts.find_eq _ _ _ _ Hf) Hab).
  apply get_remove_other. assumption.
Qed.

Lemma get_take_inv {V} b (c : Lru.t V) n v :
  Lru.get b (firstn n c) = Some v -> Lru.get b c = Some v.
Proof.
  unfold Lru.get. revert n. induction c as [|[k w] c IH]; intros [|n]; cbn;
    try discriminate.
  destruct (__eq__ k b); [auto|]. apply IH.
Qed.

Lemma get_add_other {V} a b (w : V) (c : Lru.t V) v :
  __eq__ a b = false ->
  Lru.get b (Lru.add a w c) = Some v -> Lru.get b c = Some v.
Proof.
  intros Hab. unfold Lru.add. destruct (Lru.find a c); [auto|].
  intros Hget. apply get_take_inv in Hget. unfold Lru.get in *. cbn in Hget.
  rewrite Hab in Hget. exact Hget.
Qed.

Lemma holds_touch_other {V} a b (c : Lru.t V) P :
  __eq__ a b = false -> holds c b P -> holds (Lru.touch a c) b P.
Proof. unfold holds. intros Hab Hc v. rewrite get_touch_other by assumption. apply Hc. Qed.

Lemma holds_add_other {V} a b (w : V) (c : Lru.t V) P :
  __eq__ a b = false -> holds c b P -> holds (Lru.add a w c) b P.
Proof. unfold holds. intros Hab Hc v Hv. eapply Hc, get_add_other; eassumption. Qed.

End LruOther.

(** Reading [parts] on [a] keeps the tables coherent for an unequal [b]. *)
Lemma parts_keeps_other a b m r m' :
  __eq__ a b = false ->
  parts a m = (r, m') ->
  coherent b m -> coherent b m'.
Proof.
  intros Hab. unfold parts, lru_cache, ret.
  destruct (Lru.get a (slot_get parts_slot m)); intros Hrun; inversion Hrun; subst;
    unfold coherent; cbn; intros (H1 & H2 & H3 & H4 & H5); repeat split;
    try assumption.
  - apply LruOther.holds_touch_other; assumption.
  - apply LruOther.holds_add_other; assumption.
Qed.

Lemma child_parts a other :
  PyStr.lacks PyStr.backslash other = true ->
  parts_body (child a other) = components a ++ [other].
Proof.
  intros Hn. unfold parts_body, child, _path_split, split_path. cbn.
  change ("\" +:+ other) with (String PyStr.backslash other).
  apply PyStrFacts.split_snoc. assumption.
Qed.

(** The parent of [a / n] is the path of [a]'s raw path on the local
    machine: the host of [a] is not handed on. *)
Lemma parent_of_child a other m :
  constructed a ->
  value_name a = None ->
  PyStr.lacks PyStr.backslash other = true ->
  coherent a m ->
  coherent (child a other) m ->
  run (b <- __truediv__ a other ;; parent b) m
  = Ok (mkRegistryPath None None (_raw_path a) (_key a)).
Proof.
  intros Hc Hv Hn Hm Hmb. unfold run.
  assert (Hb : exists m1, __truediv__ a other m = (Ok (child a other), m1)
                          /\ coherent (child a other) m1).
  { unfold __truediv__. rewrite Hv.
    destruct (parts_coherent _ _ Hm) as (m1 & Hp & _).
    exists m1. split.
    - rewrite (bind_Ok _ _ _ _ _ Hp). unfold lift, parts_body. rewrite Hv.
      rewrite init_child by assumption. reflexivity.
    - eapply parts_keeps_other; [apply child_neq, Hv|exact Hp|exact Hmb]. }
  destruct Hb as (m1 & Hdiv & Hm1). rewrite (bind_Ok _ _ _ _ _ Hdiv).
  assert (Hq : head (ancestors (child a other))
               = Some (mkRegistryPath None None (_raw_path a) (_key a))).
  { unfold ancestors. rewrite (child_parts _ _ Hn), length_app. cbn [length].
    assert (Hseg : exists w ws, components a = w :: ws).
    { unfold components, _path_split, split_path.
      pose proof (PyStrFacts.split_nonempty PyStr.backslash (_raw_path a)).
      destruct (PyStr.split PyStr.backslash (_raw_path a)) as [|w ws]; [congruence|].
      exists w, ws. reflexivity. }
    destruct Hseg as (w & ws & Hs).
    replace (length (components a) + 1 - 1)%nat with (S (length ws))
      by (rewrite Hs; cbn; lia).
    cbn [seq map head]. f_equal. unfold ancestor. cbn [_key child]. f_equal.
    rewrite (child_parts _ _ Hn).
    replace (length (components a) + 1 - 1)%nat with (length (components a)) by lia.
    rewrite take_app_length. unfold components, join_path, _path_split, split_path.
    apply PyStrFacts.join_split. }
  destruct (parent_coherent _ _ _ (child_constructed _ other Hc) Hm1 Hq)
    as (m2 & -> & _).
  reflexivity.
Qed.

(** On the local machine, the parent of [a / n] is equal to [a]. *)
Lemma concatenate_parent_local a other m :
  constructed a ->
  value_name a = None ->
  computer a = None ->
  PyStr.lacks PyStr.backslash other = true ->
  coherent a m ->
  coherent (child a other) m ->
  run (b <- __truediv__ a other ;; q <- parent b ;; ret (__eq__ q a)) m = Ok true.
Proof.
  intros Hc Hv Hh Hn Hm Hmb.
  pose proof (parent_of_child a other m Hc Hv Hn Hm Hmb) as Hrun.
  unfold run, bind in *.
  destruct (__truediv__ a other m) as [[b|e] m1]; [|discriminate].
  destruct (parent b m1) as [[q|e] m2]; cbn in *; [|discriminate].
  inversion Hrun; subst. f_equal. apply eq_iff_repr.
  unfold __repr__. cbn. rewrite Hv, Hh. reflexivity.
Qed.

(** With a host, it is not. *)
Lemma concatenate_parent_remote a other m host :
  constructed a ->
  value_name a = None ->
  computer a = Some host ->
  PyStr.lacks PyStr.backslash other = true ->
  coherent a m ->
  coherent (child a other) m ->
  run (b <- __truediv__ a other ;; q <- parent b ;; ret (__eq__ q a)) m = Ok false.
Proof.
  intros Hc Hv Hh Hn Hm Hmb.
  pose proof (parent_of_child a other m Hc Hv Hn Hm Hmb) as Hrun.
  unfold run, bind in *.
  destruct (__truediv__ a other m) as [[b|e] m1]; [|discriminate].
  destruct (parent b m1) as [[q|e] m2]; cbn in *; [|discriminate].
  inversion Hrun; subst. f_equal. apply neq_by_length.
  unfold __repr__. cbn. rewrite Hv, Hh, !repr_length. lia.
Qed.

(** C2 (the code departs from the claim).  [RegistryPath("HKLM",
    computer="lol") / "testing"] is built without error and keeps the
    host, but its parent is [RegistryPath("HKLM")] on the local machine:
    [parents] builds every ancestor without the host, where [__truediv__]
    and [with_value_name] hand it on.  The parent is therefore not equal
    to the path the child was made from. *)
Theorem concatenate_parent_drops_host :
  let a := mkRegistryPath (Some "\\lol"%string) None "HKLM" HKEY_LOCAL_MACHINE in
  let b := mkRegistryPath (Some "\\lol"%string) None "HKLM\testing" HKEY_LOCAL_MACHINE in
  let q := mkRegistryPath None None "HKLM" HKEY_LOCAL_MACHINE in
  __init__ "HKLM" None (Some "lol"%string) = Ok a /\
  run (__truediv__ a "testing") Memo_empty = Ok b /\
  run (b <- __truediv__ a "testing" ;; parent b) Memo_empty = Ok q /\
  __eq__ q a = false /\
  run (b <- __truediv__ a "testing" ;; q <- parent b ;; ret (__eq__ q a)) Memo_empty
  = Ok false.
Proof. repeat split; vm_compute; reflexivity. Qed.

(** The tables are shared between paths that print alike: after [parts]
    has been read on the key path [HKLM\x -> a], the value path [a] of the
    key [HKLM\x] is handed the same parts.  This is the situation
    [coherent] rules out. *)
Remark memo_shared_by_lookalikes :
  let a := mkRegistryPath None None "HKLM\x -> a" HKEY_LOCAL_MACHINE in
  let b := mkRegistryPath None (Some "a"%string) "HKLM\x" HKEY_LOCAL_MACHINE in
  __init__ "HKLM\x -> a" None None = Ok a /\
  __init__ "HKLM\x" (Some "a"%string) None = Ok b /\
  __eq__ a b = true /\
  run (parts b) Memo_empty = Ok ["HKLM"; "x"; "a"]%string /\
  run (_ <- parts a ;; parts b) Memo_empty = Ok ["HKLM"; "x -> a"]%string.
Proof. repeat split; vm_compute; reflexivity. Qed.

(** ** The handle broker and the registry operations *)

(** *** Reading a property again *)

Lemma get_equal_keys {V} a b (c : Lru.t V) :
  __eq__ a b = true -> Lru.get a c = Lru.get b c.
Proof.
  unfold __eq__. rewrite Z.eqb_eq. intros Hab. unfold Lru.get.
  induction c as [|[k v] c IH]; [reflexivity|]. cbn. unfold __eq__.
  rewrite Hab. destruct (__hash__ k =? __hash__ b); [reflexivity|exact IH].
Qed.

(** A second read through the wrapper, on an equal path, returns the
    first result, provided the body keeps out of its own table. *)
Lemma lru_cache_again {V} (s : slot V) a b (body body' : St Memo V) m v m1 :
  (forall c m0, slot_get s (slot_set s c m0) = c) ->
  (forall r m0, body m = (r, m0) -> slot_get s m0 = slot_get s m) ->
  lru_cache s a body m = (Ok v, m1) ->
  __eq__ a b = true ->
  run (lru_cache s b body') m1 = Ok v.
Proof.
  intros Hslot Hown Hrun Hab. unfold run, lru_cache in *.
  rewrite <- (get_equal_keys a b _ Hab).
  destruct (Lru.get a (slot_get s m)) as [v0|] eqn:Hget.
  - inversion Hrun; subst. rewrite Hslot, LruFacts.get_touch, Hget. reflexivity.
  - destruct (body m) as [[v0|e] m0] eqn:Hbody; [|discriminate].
    inversion Hrun; subst. rewrite Hslot.
    rewrite (Hown _ _ eq_refl), (LruFacts.get_add _ _ _ Hget). reflexivity.
Qed.

Lemma bind_frame {A B X} (g : Memo -> X) (f : St Memo A) (k : A -> St Memo B) m r m' :
  (forall r0 m0, f m = (r0, m0) -> g m0 = g m) ->
  (forall x m0 r0 m1, k x m0 = (r0, m1) -> g m1 = g m0) ->
  bind f k m = (r, m') -> g m' = g m.
Proof.
  intros Hf Hk. unfold bind. destruct (f m) as [[x|e] m0] eqn:Hfm.
  - intros Hrun. rewrite (Hk _ _ _ _ Hrun). apply (Hf _ _ eq_refl).
  - intros Hrun. inversion Hrun; subst. apply (Hf _ _ eq_refl).
Qed.

Lemma for_each_frame {A B X} (g : Memo -> X) (l : list A) (f : A -> St Memo B) m r m' :
  (forall x m0 r0 m1, f x m0 = (r0, m1) -> g m1 = g m0) ->
  for_each l f m = (r, m') -> g m' = g m.
Proof.
  intros Hf. revert m r m'. induction l as [|x l IH]; intros m r m'; cbn [for_each].
  - intros Hrun. inversion Hrun. reflexivity.
  - apply bind_frame; [intros r0 m0; apply Hf|].
    intros y m0 r0 m1. apply bind_frame; [intros r1 m2; apply IH|].
    intros ys m2 r1 m3 Hret. inversion Hret. reflexivity.
Qed.

(** [parts] writes to its own table only. *)
Lemma parts_frame p m r m' :
  parts p m = (r, m') ->
  parent_cache m' = parent_cache m /\ parents_cache m' = parents_cache m /\
  name_cache m' = name_cache m /\ subkey_cache m' = subkey_cache m.
Proof.
  unfold parts, lru_cache, ret.
  destruct (Lru.get p (slot_get parts_slot m)); intros Hrun; inversion Hrun;
    repeat split.
Qed.

(** [parents] writes to its own table and to the one of [parts]. *)
Lemma parents_frame p m r m' :
  parents p m = (r, m') ->
  parent_cache m' = parent_cache m /\ name_cache m' = name_cache m /\
  subkey_cache m' = subkey_cache m.
Proof.
  unfold parents, lru_cache.
  destruct (Lru.get p (slot_get parents_slot m)).
  - intros Hrun; inversion Hrun; repeat split.
  - match goal with |- context [match ?b m with _ => _ end] => set (body := b) end.
    assert (Hbody : forall r0 m0, body m = (r0, m0) ->
              parent_cache m0 = parent_cache m /\ name_cache m0 = name_cache m /\
              subkey_cache m0 = subkey_cache m).
    { intros r0 m0 Hb. repeat split.
      - revert Hb. apply (bind_frame parent_cache).
        + intros r1 m1 Hp. apply (parts_frame _ _ _ _ Hp).
        + intros ps m1 r1 m2. apply (for_each_frame parent_cache).
          intros i m3 r2 m4. apply (bind_frame parent_cache).
          * intros r3 m5 Hp. apply (parts_frame _ _ _ _ Hp).
          * intros ps' m5 r3 m6 Hl. inversion Hl. reflexivity.
      - revert Hb. apply (bind_frame name_cache).
        + intros r1 m1 Hp. apply (parts_frame _ _ _ _ Hp).
        + intros ps m1 r1 m2. apply (for_each_frame name_cache).
          intros i m3 r2 m4. apply (bind_frame name_cache).
          * intros r3 m5 Hp. apply (parts_frame _ _ _ _ Hp).
          * intros ps' m5 r3 m6 Hl. inversion Hl. reflexivity.
      - revert Hb. apply (bind_frame subkey_cache).
        + intros r1 m1 Hp. apply (parts_frame _ _ _ _ Hp).
        + intros ps m1 r1 m2. apply (for_each_frame subkey_cache).
          intros i m3 r2 m4. apply (bind_frame subkey_cache).
          * intros r3 m5 Hp. apply (parts_frame _ _ _ _ Hp).
          * intros ps' m5 r3 m6 Hl. inversion Hl. reflexivity. }
    destruct (body m) as [[v|e] m0]; intros Hrun; inversion Hrun; subst;
      destruct (Hbody _ _ eq_refl) as (H1 & H2 & H3); repeat split; assumption.
Qed.

(** What [parts] returns depends on its own table only, and it returns
    the same again. *)
Lemma parts_same_table p m m' :
  parts_cache m' = parts_cache m -> fst (parts p m') = fst (parts p m).
Proof.
  intros Heq. unfold parts, lru_cache. cbn [slot_get parts_slot]. rewrite Heq.
  destruct (Lru.get p (parts_cache m)); reflexivity.
Qed.

Lemma parts_again p m r m1 : parts p m = (r, m1) -> fst (parts p m1) = r.
Proof.
  intros Hrun. destruct r as [v|e].
  - eapply lru_cache_again; [reflexivity| |exact Hrun|apply eq_self].
    intros r m0 Hb. inversion Hb. reflexivity.
  - unfold parts, lru_cache, ret in Hrun.
    destruct (Lru.get p (slot_get parts_slot m)); discriminate.
Qed.

(** [subkey] returns the same again, and reading it leaves what [parts]
    returns as it was. *)
Lemma subkey_again p m v m1 : subkey p m = (Ok v, m1) -> fst (subkey p m1) = Ok v.
Proof.
  intros Hrun. eapply lru_cache_again; [reflexivity| |exact Hrun|apply eq_self].
  intros r m0. destruct (value_name p);
    (apply (bind_frame subkey_cache);
     [intros r1 m2 Hp; apply (parts_frame _ _ _ _ Hp)
     |intros ps m2 r1 m3 Hl; inversion Hl; reflexivity]).
Qed.

Lemma subkey_keeps_parts p m r m1 :
  subkey p m = (r, m1) -> fst (parts p m1) = fst (parts p m).
Proof.
  unfold subkey, lru_cache.
  destruct (Lru.get p (slot_get subkey_slot m)).
  - intros Hrun. inversion Hrun; subst. apply parts_same_table. reflexivity.
  - destruct (value_name p); unfold bind, ret;
      destruct (parts p m) as [[ps|e] m2] eqn:Hp; cbn [fst];
      intros Hrun; inversion Hrun; subst;
      try (rewrite <- (parts_again _ _ _ _ Hp); apply parts_same_table; reflexivity);
      apply (parts_again _ _ _ _ Hp).
Qed.

(** What [/] returns depends on the tables through [parts] alone, and
    leaves what [parts] returns as it was. *)
Lemma truediv_same p other m m0 :
  fst (parts p m) = fst (parts p m0) ->
  fst (__truediv__ p other m) = fst (__truediv__ p other m0).
Proof.
  intros Heq. unfold __truediv__. destruct (value_name p); [reflexivity|].
  unfold bind. destruct (parts p m) as [r m1], (parts p m0) as [r0 m2].
  cbn [fst] in Heq. subst r0. destruct r; reflexivity.
Qed.

Lemma truediv_keeps_parts p other m r m1 :
  __truediv__ p other m = (r, m1) -> fst (parts p m1) = fst (parts p m).
Proof.
  unfold __truediv__. destruct (value_name p).
  - intros Hrun. inversion Hrun. reflexivity.
  - unfold bind. destruct (parts p m) as [[ps|e] m2] eqn:Hp; unfold lift;
      intros Hrun; inversion Hrun; subst; apply (parts_again _ _ _ _ Hp).
Qed.

Section StoreFacts.

Context {W : Type} `{Winreg W}.

(** [_get_subkey_handle], step by step: connect, read [subkey], open,
    run the block, close what was opened. *)
Lemma get_subkey_handle_run {A} p reads writes (body : handle -> M W A) st sk m1 :
  subkey p (memo st) = (Ok sk, m1) ->
  _get_subkey_handle p reads writes body st =
    let c1 := calls st ++ [CallConnectRegistry (computer p) (_key p)] in
    match ConnectRegistry (computer p) (_key p) (world st) with
    | (Raise e, w1) => (Raise e, mkState (memo st) w1 c1)
    | (Ok reg_handle, w1) =>
        let c2 := c1 ++ [CallOpenKey reg_handle sk (access_mask reads writes)] in
        match OpenKey reg_handle sk (access_mask reads writes) w1 with
        | (Raise e, w2) => (Raise e, close reg_handle (mkState m1 w2 c2))
        | (Ok h, w2) =>
            let (r, st3) := body h (mkState m1 w2 c2) in
            (r, close reg_handle (close h st3))
        end
    end.
Proof.
  intros Hsk.
  unfold _get_subkey_handle, with_, bind, connect_registry, open_key, record,
    memoised.
  destruct (ConnectRegistry (computer p) (_key p) (world st)) as [[reg|e] w1];
    [|reflexivity].
  cbn [memo world calls]. rewrite Hsk. cbn [memo world calls].
  destruct (OpenKey reg sk (access_mask reads writes) w1) as [[h|e] w2];
    [|reflexivity].
  destruct (body h _) as [r st3]. reflexivity.
Qed.

(** C9.  Whatever the guarded block does, [_get_subkey_handle] closes
    every handle it has acquired.  If connecting fails nothing was
    acquired and nothing is closed.  If opening the key fails after the
    connection succeeded, the connection handle is closed and the
    failure passed on.  If both succeed, the block runs and, whether it
    returns (also by an early return) or raises, the key handle and then
    the connection handle are closed, and the block's outcome is the
    outcome of the whole. *)
Theorem handles_released {A} p reads writes (body : handle -> M W A) st :
  exists sk m1,
    subkey p (memo st) = (Ok sk, m1) /\
    let access := access_mask reads writes in
    let connect := CallConnectRegistry (computer p) (_key p) in
    match ConnectRegistry (computer p) (_key p) (world st) with
    | (Raise e, w1) =>
        _get_subkey_handle p reads writes body st
        = (Raise e, mkState (memo st) w1 (calls st ++ [connect]))
    | (Ok reg_handle, w1) =>
        let open := CallOpenKey reg_handle sk access in
        match OpenKey reg_handle sk access w1 with
        | (Raise e, w2) =>
            _get_subkey_handle p reads writes body st
            = (Raise e,
               mkState m1 (CloseKey reg_handle w2)
                       (calls st ++ [connect; open; CallClose reg_handle]))
        | (Ok h, w2) =>
            let (r, st3) := body h (mkState m1 w2 (calls st ++ [connect; open])) in
            _get_subkey_handle p reads writes body st
            = (r,
               mkState (memo st3) (CloseKey reg_handle (CloseKey h (world st3)))
                       (calls st3 ++ [CallClose h; CallClose reg_handle]))
        end
    end.
Proof.
  destruct (subkey_total p (memo st)) as (sk & m1 & Hsk).
  exists sk, m1. split; [exact Hsk|].
  rewrite (get_subkey_handle_run _ _ _ _ _ _ _ Hsk). cbv zeta.
  destruct (ConnectRegistry (computer p) (_key p) (world st)) as [[reg|e] w1];
    [|reflexivity].
  destruct (OpenKey reg sk (access_mask reads writes) w1) as [[h|e] w2].
  - rewrite <- app_assoc. cbn [app].
    destruct (body h _) as [r st3]. unfold close. cbn [memo world calls].
    rewrite <- app_assoc. reflexivity.
  - unfold close. cbn [memo world calls]. rewrite <- !app_assoc. reflexivity.
Qed.

(** C7.  [exists] returns true exactly when the store lets the key be
    opened and, for a value path, the value be queried.  When the store
    raises on the way, a [FileNotFoundError] (or a subclass) becomes the
    answer false, and any other exception reaches the caller as it
    is. *)
Theorem exists_spec p st :
  (run (exists_ p) st = Ok true <-> probe p st = Ok tt) /\
  (forall e, probe p st = Raise e ->
             run (exists_ p) st
             = if is_FileNotFoundError e then Ok false else Raise e).
Proof.
  destruct (subkey_total p (memo st)) as (sk & m1 & Hsk).
  unfold run, exists_, try_except_FileNotFoundError, probe.
  rewrite (get_subkey_handle_run _ _ _ _ _ _ _ Hsk), Hsk. cbv zeta.
  change (access_mask true false) with KEY_READ.
  destruct (ConnectRegistry (computer p) (_key p) (world st)) as [[reg|e] w1].
  - destruct (OpenKey reg sk KEY_READ w1) as [[h|e] w2].
    + destruct (value_name p) as [v|].
      * unfold bind, query_value_ex, record, ret. cbn [memo world calls].
        destruct (QueryValueEx h v w2) as [[r|e] w3]; cbn.
        -- split; [split; reflexivity|discriminate].
        -- split.
           ++ destruct (is_FileNotFoundError e); cbn; split; discriminate.
           ++ intros e' He'. inversion He'; subst.
              destruct (is_FileNotFoundError e'); reflexivity.
      * cbn. split; [split; reflexivity|discriminate].
    + cbn. split.
      * destruct (is_FileNotFoundError e); cbn; split; discriminate.
      * intros e' He'. inversion He'; subst.
        destruct (is_FileNotFoundError e'); reflexivity.
  - cbn. split.
    + destruct (is_FileNotFoundError e); cbn; split; discriminate.
    + intros e' He'. inversion He'; subst.
      destruct (is_FileNotFoundError e'); reflexivity.
Qed.

(** *** Operations that need a value name *)

(** C5, as the code has it.  On a path without a value name (and
    without a value name argument), [registry_type], [read_raw] and
    [write_raw] raise [ValueError], and [unlink] raises
    [FileNotFoundError]; none of the four makes a call to the store or
    changes it: the state is returned as it was. *)
Theorem value_name_required (p : RegistryPath) (st : State W)
        (missing_ok : bool) (value : pyval) (typ : Z) :
  value_name p = None ->
  registry_type p st
  = (Raise (ValueError
      "This function only works if value_name is set.. so it only works with values"),
     st) /\
  read_raw p None st
  = (Raise (ValueError "value_name must be provided to use read_raw()"), st) /\
  write_raw p value typ None st
  = (Raise (ValueError "value_name must be provided to use write_raw()"), st) /\
  unlink p missing_ok st
  = (Raise (FileNotFoundError
              (__repr__ p +:+ " points to a directory/key not a file")), st).
Proof.
  intros Hv. unfold registry_type, read_raw, write_raw, unlink, py_or.
  rewrite Hv. repeat split.
Qed.

(** *** Writing with a guessed type *)

(** The value name [write] settles on is the one [write_raw] uses. *)
Lemma py_or_idem a b v : py_or a b = Some v -> py_or (Some v) b = Some v.
Proof.
  unfold py_or. destruct a as [s|].
  - destruct (PyStr.is_empty s) eqn:Hs.
    + intros ->. destruct (PyStr.is_empty v); reflexivity.
    + intros Hv. inversion Hv; subst. rewrite Hs. reflexivity.
  - intros ->. destruct (PyStr.is_empty v); reflexivity.
Qed.

(** Without reading the existing type, [write] hands [write_raw] the
    type its heuristic picks, or raises before any call. *)
Lemma write_guess p value value_name' vname st :
  py_or value_name' (value_name p) = Some vname ->
  write p value value_name' false st =
    match value with
    | PyStr s =>
        let percent_count := Z.of_nat (PyStr.count PyStr.percent s) in
        write_raw p value
          (if (percent_count >? 0) && (percent_count mod 2 =? 0)
           then REG_EXPAND_SZ else REG_SZ) (Some vname) st
    | PyList _ => write_raw p value REG_MULTI_SZ (Some vname) st
    | PyNone => write_raw p value REG_NONE (Some vname) st
    | PyInt z =>
        if z <? 0 then
          (Raise (ValueError
             "Guessed an integer type.. but you passed a negative. Numbers in the registry are unsigned."),
           st)
        else write_raw p value (if z >? 0xFFFFFFFF then REG_QWORD else REG_DWORD)
                       (Some vname) st
    | PyBool _ => write_raw p value REG_DWORD (Some vname) st
    | PyBytes _ => write_raw p value REG_BINARY (Some vname) st
    end.
Proof.
  intros Hv. unfold write. rewrite Hv. unfold bind, ret, raise.
  destruct value as [s|l| |z|b|bs]; cbn [fst snd]; try reflexivity.
  - destruct ((Z.of_nat (PyStr.count PyStr.percent s) >? 0)
              && (Z.of_nat (PyStr.count PyStr.percent s) mod 2 =? 0));
      reflexivity.
  - destruct (z <? 0); [reflexivity|]. destruct (z >? 0xFFFFFFFF); reflexivity.
  - destruct b; reflexivity.
Qed.

(** C4.  With [read_type] off, [write] resolves the type by the guessing
    table and delegates to [write_raw] with it: 1 is a DWORD,
    0xFFFFFFFFFF a QWORD, "hello" a plain string, "%hello%" an
    expandable string, a list a multi-string, [None] the none type and
    bytes binary.  A negative integer raises [ValueError] before any
    call to the store: the state comes back as it was. *)
Theorem write_guessing_table p value_name' vname st :
  py_or value_name' (value_name p) = Some vname ->
  write p (PyInt 1) value_name' false st
  = write_raw p (PyInt 1) REG_DWORD (Some vname) st /\
  write p (PyInt 0xFFFFFFFFFF) value_name' false st
  = write_raw p (PyInt 0xFFFFFFFFFF) REG_QWORD (Some vname) st /\
  write p (PyStr "hello") value_name' false st
  = write_raw p (PyStr "hello") REG_SZ (Some vname) st /\
  write p (PyStr "%hello%") value_name' false st
  = write_raw p (PyStr "%hello%") REG_EXPAND_SZ (Some vname) st /\
  write p (PyList [PyStr "hi"; PyStr "world"]) value_name' false st
  = write_raw p (PyList [PyStr "hi"; PyStr "world"]) REG_MULTI_SZ (Some vname) st /\
  write p PyNone value_name' false st
  = write_raw p PyNone REG_NONE (Some vname) st /\
  write p (PyBytes "123") value_name' false st
  = write_raw p (PyBytes "123") REG_BINARY (Some vname) st /\
  (forall z, z < 0 ->
     write p (PyInt z) value_name' false st
     = (Raise (ValueError
          "Guessed an integer type.. but you passed a negative. Numbers in the registry are unsigned."),
        st)).
Proof.
  intros Hv. repeat split; try (rewrite (write_guess _ _ _ _ _ Hv); reflexivity).
  intros z Hz. rewrite (write_guess _ _ _ _ _ Hv).
  destruct (Z.ltb_spec z 0); [reflexivity|lia].
Qed.

(** Whatever the value name, a negative integer makes [write] raise
    [ValueError] without touching the store. *)
Lemma write_negative p value_name' z st :
  z < 0 ->
  exists msg, write p (PyInt z) value_name' false st = (Raise (ValueError msg), st).
Proof.
  intros Hz. destruct (py_or value_name' (value_name p)) as [vname|] eqn:Hv.
  - eexists. rewrite (write_guess _ _ _ _ _ Hv).
    destruct (Z.ltb_spec z 0); [reflexivity|lia].
  - eexists. unfold write. rewrite Hv. reflexivity.
Qed.

(** The integers in general: 32 bits when they fit, 64 otherwise. *)
Lemma write_guess_int p value_name' vname z st :
  py_or value_name' (value_name p) = Some vname ->
  0 <= z ->
  write p (PyInt z) value_name' false st
  = write_raw p (PyInt z)
      (if z <=? 0xFFFFFFFF then REG_DWORD else REG_QWORD) (Some vname) st.
Proof.
  intros Hv Hz. rewrite (write_guess _ _ _ _ _ Hv).
  destruct (Z.ltb_spec z 0); [lia|].
  destruct (Z.gtb_spec z 0xFFFFFFFF), (Z.leb_spec z 0xFFFFFFFF);
    try reflexivity; lia.
Qed.

(** *** The empty string as a value name argument *)

(** For [read_raw], [read], [write_raw] and [write], the empty string as
    the value name argument is the argument left out. *)
Lemma empty_value_name_as_omitted p value typ read_type :
  read_raw p (Some EmptyString) = read_raw p None /\
  read p (Some EmptyString) = read p None /\
  write_raw p value typ (Some EmptyString) = write_raw p value typ None /\
  write p value (Some EmptyString) read_type = write p value None read_type.
Proof. repeat split. Qed.

(** [is_file] computes the value name it settles on and then rebuilds
    the path with the argument as given.  Left out, the argument makes
    it test the key alone; empty, it makes it test the value of the
    empty name. *)
Lemma is_file_omitted p v :
  constructed p ->
  value_name p = Some v ->
  is_file p None = exists_ (valued p None).
Proof.
  intros Hc Hv. unfold is_file, py_or. rewrite Hv.
  rewrite (with_value_name_constructed _ None Hc). reflexivity.
Qed.

Lemma is_file_empty p v :
  constructed p ->
  value_name p = Some v ->
  is_file p (Some EmptyString) = exists_ (valued p (Some EmptyString)).
Proof.
  intros Hc Hv. unfold is_file, py_or. cbn [PyStr.is_empty]. rewrite Hv.
  rewrite (with_value_name_constructed _ (Some EmptyString) Hc). reflexivity.
Qed.

(** *** Enumeration *)

(** Reading a memoised property changes the tables only. *)
Lemma memoised_run {A} (m : St Memo A) (st : State W) r m' :
  m (memo st) = (r, m') ->
  memoised m st = (r, mkState m' (world st) (calls st)).
Proof. unfold memoised. intros ->. reflexivity. Qed.

(** [exists] keeps the tables coherent. *)
Lemma exists_coherent p st r st' :
  coherent p (memo st) ->
  exists_ p st = (r, st') ->
  coherent p (memo st').
Proof.
  intros Hm. destruct (subkey_coherent _ _ Hm) as (m1 & Hsk & Hm1).
  unfold exists_, try_except_FileNotFoundError.
  rewrite (get_subkey_handle_run _ _ _ _ _ _ _ Hsk). cbv zeta.
  destruct (ConnectRegistry (computer p) (_key p) (world st)) as [[reg|e] w1].
  - destruct (OpenKey reg _ _ w1) as [[h|e] w2].
    + destruct (value_name p) as [v|].
      * unfold bind, query_value_ex, record, ret. cbn [memo world calls].
        destruct (QueryValueEx h v w2) as [[x|e] w3]; cbn.
        -- intros Hr. inversion Hr; subst. exact Hm1.
        -- destruct (is_FileNotFoundError e); intros Hr; inversion Hr; subst;
             exact Hm1.
      * cbn. intros Hr. inversion Hr; subst. exact Hm1.
    + cbn. destruct (is_FileNotFoundError e); intros Hr; inversion Hr; subst;
        exact Hm1.
  - cbn. destruct (is_FileNotFoundError e); intros Hr; inversion Hr; subst;
      exact Hm.
Qed.

Lemma enum_key_names_length h indices w names w' :
  enum_key_names h indices w = (Ok names, w') -> length names = length indices.
Proof.
  revert w names. induction indices as [|i rest IH]; intros w names; cbn.
  - intros Hr. inversion Hr. reflexivity.
  - destruct (EnumKey h i w) as [[n|e] w1]; [|discriminate].
    destruct (enum_key_names h rest w1) as [[ns|e] w2] eqn:Hrest; [|discriminate].
    intros Hr. inversion Hr; subst. cbn. f_equal. eapply IH. exact Hrest.
Qed.

Lemma enum_value_names_length h indices w names w' :
  enum_value_names h indices w = (Ok names, w') -> length names = length indices.
Proof.
  revert w names. induction indices as [|i rest IH]; intros w names; cbn.
  - intros Hr. inversion Hr. reflexivity.
  - destruct (EnumValue h i w) as [[[[n x] t]|e] w1]; [|discriminate].
    destruct (enum_value_names h rest w1) as [[ns|e] w2] eqn:Hrest; [|discriminate].
    intros Hr. inversion Hr; subst. cbn. f_equal. eapply IH. exact Hrest.
Qed.

(** [exists] leaves what [parts] and [subkey] return for the path as it
    was. *)
Lemma exists_keeps_reads p st r st1 :
  exists_ p st = (r, st1) ->
  fst (parts p (memo st1)) = fst (parts p (memo st)) /\
  fst (subkey p (memo st1)) = fst (subkey p (memo st)).
Proof.
  destruct (subkey_total p (memo st)) as (sk & m1 & Hsk).
  pose proof (subkey_keeps_parts _ _ _ _ Hsk) as Hparts.
  pose proof (subkey_again _ _ _ _ Hsk) as Hagain.
  rewrite Hsk. cbn [fst].
  unfold exists_, try_except_FileNotFoundError.
  rewrite (get_subkey_handle_run _ _ _ _ _ _ _ Hsk). cbv zeta.
  destruct (ConnectRegistry (computer p) (_key p) (world st)) as [[reg|e] w1].
  - destruct (OpenKey reg _ _ w1) as [[h|e] w2].
    + destruct (value_name p) as [v|].
      * unfold bind, query_value_ex, record, ret. cbn [memo world calls].
        destruct (QueryValueEx h v w2) as [[x|e] w3]; cbn.
        -- intros Hr. inversion Hr; subst. split; assumption.
        -- destruct (is_FileNotFoundError e); intros Hr; inversion Hr; subst;
             split; assumption.
      * cbn. intros Hr. inversion Hr; subst. split; assumption.
    + cbn. destruct (is_FileNotFoundError e); intros Hr; inversion Hr; subst;
        split; assumption.
  - cbn. destruct (is_FileNotFoundError e); intros Hr; inversion Hr; subst;
      cbn [memo]; rewrite Hsk; split; reflexivity.
Qed.

(** The first loop of [iterdir]: one [EnumKey] per index, in order, each
    name turned into [self / name], which is what [/] returns for it in
    any state in which [parts] returns the same. *)
Lemma iterdir_keys_loop p h indices st names w' children m0 :
  fst (parts p (memo st)) = fst (parts p m0) ->
  enum_key_names h indices (world st) = (Ok names, w') ->
  Forall2 (fun n c => run (__truediv__ p n) m0 = Ok c) names children ->
  exists m',
    for_each indices
      (fun sub_key_idx =>
         sub_key_name <- enum_key h sub_key_idx ;;
         memoised (__truediv__ p sub_key_name)) st
    = (Ok children,
       mkState m' w' (calls st ++ map (CallEnumKey h) indices)).
Proof.
  revert st names children.
  induction indices as [|i rest IH]; intros st names children Hparts;
    cbn [enum_key_names].
  - intros Hr Hall. inversion Hr; subst. inversion Hall; subst.
    exists (memo st). cbn. rewrite app_nil_r. destruct st. reflexivity.
  - destruct (EnumKey h i (world st)) as [[n|e] w1] eqn:Hi; [|discriminate].
    destruct (enum_key_names h rest w1) as [[ns|e] w2] eqn:Hrest; [|discriminate].
    intros Hr Hall. inversion Hr; subst. inversion Hall as [|? c ? cs Hc Hcs]; subst.
    destruct (__truediv__ p n (memo st)) as [r m1] eqn:Hdiv.
    assert (Hres : r = Ok c).
    { pose proof (truediv_same p n _ _ Hparts) as Hsame.
      rewrite Hdiv in Hsame. cbn [fst] in Hsame. rewrite Hsame. exact Hc. }
    subst r.
    set (st1 := mkState m1 w1 (calls st ++ [CallEnumKey h i])).
    assert (Hparts1 : fst (parts p (memo st1)) = fst (parts p m0)).
    { cbn [memo st1]. rewrite (truediv_keeps_parts _ _ _ _ _ Hdiv). exact Hparts. }
    destruct (IH st1 ns cs Hparts1 Hrest Hcs) as (m2 & Hloop).
    exists m2. cbn [for_each map].
    assert (Hstep : (sub_key_name <- enum_key h i ;;
                     memoised (__truediv__ p sub_key_name)) st
                    = (Ok c, st1)).
    { unfold bind, enum_key, record. rewrite Hi.
      rewrite (memoised_run _ (mkState (memo st) w1 (calls st ++ [CallEnumKey h i]))
                            _ _ Hdiv).
      reflexivity. }
    rewrite (bind_Ok _ _ _ _ _ Hstep), (bind_Ok _ _ _ _ _ Hloop).
    unfold ret, st1. cbn [calls]. rewrite <- app_assoc. reflexivity.
Qed.

(** On coherent tables [self / name] is [child self name]. *)
Lemma children_coherent p m names children :
  constructed p ->
  value_name p = None ->
  coherent p m ->
  Forall2 (fun n c => run (__truediv__ p n) m = Ok c) names children ->
  children = map (child p) names.
Proof.
  intros Hc Hv Hm Hall. induction Hall as [|n c ns cs Hn _ IH]; [reflexivity|].
  destruct (truediv_coherent p n m Hc Hv Hm) as (m1 & Hdiv & _).
  unfold run in Hn. rewrite Hdiv in Hn. inversion Hn; subst. cbn [map].
  congruence.
Qed.

(** The second loop: one [EnumValue] per index, in order, each name
    turned into [self.with_value_name(name)]. *)
Lemma iterdir_values_loop p h indices st names w' :
  constructed p ->
  enum_value_names h indices (world st) = (Ok names, w') ->
  for_each indices
    (fun value_idx =>
       v <- enum_value h value_idx ;;
       let '(value_name, _, _) := v in
       lift (with_value_name p (Some value_name))) st
  = (Ok (map (fun n => valued p (Some n)) names),
     mkState (memo st) w' (calls st ++ map (CallEnumValue h) indices)).
Proof.
  intros Hc. revert st names.
  induction indices as [|i rest IH]; intros st names; cbn [enum_value_names].
  - intros Hr. inversion Hr; subst. cbn. rewrite app_nil_r. destruct st. reflexivity.
  - destruct (EnumValue h i (world st)) as [[[[n x] t]|e] w1] eqn:Hi; [|discriminate].
    destruct (enum_value_names h rest w1) as [[ns|e] w2] eqn:Hrest; [|discriminate].
    intros Hr. inversion Hr; subst.
    set (st1 := mkState (memo st) w1 (calls st ++ [CallEnumValue h i])).
    pose proof (IH st1 ns Hrest) as Hloop.
    cbn [for_each map].
    assert (Hstep : (v <- enum_value h i ;;
                     let '(value_name, _, _) := v in
                     lift (with_value_name p (Some value_name))) st
                    = (Ok (valued p (Some n)), st1)).
    { unfold bind, enum_value, record, lift. rewrite Hi.
      rewrite (with_value_name_constructed _ _ Hc). reflexivity. }
    rewrite (bind_Ok _ _ _ _ _ Hstep), (bind_Ok _ _ _ _ _ Hloop).
    unfold ret, st1. cbn [calls memo]. rewrite <- app_assoc. reflexivity.
Qed.

(** C6.  [iterdir] on a path for which [is_dir] is false raises
    [NotADirectoryError].  On a path for which [is_dir] is true, with
    [sk] what [subkey] returns for it: when the store reports [k]
    subkeys and [v] values for the key opened under [sk], answers the
    enumeration of the indices below [k] and below [v] with the names
    [names] and [vnames], and [children] are what [self / name] is for
    each of [names], the items are, in this order, [children] and then
    [self.with_value_name(name)] for each value name: as many items as
    [k] and [v] together.  The store is asked for subkey 0, 1, ... up to
    [k], then for value 0, 1, ... up to [v], each index once, between
    the opening of the key and the closing of the two handles.  This
    holds whatever the memo tables hold.  When they are coherent for
    the path, [sk] is the subkey of the path and [self / name] is
    [child self name]; [valued] is what [with_value_name] returns
    (lemma [with_value_name_constructed]). *)
Theorem iterdir_lists_children raw vn comp p st :
  __init__ raw vn comp = Ok p ->
  (forall st1,
      is_dir p st = (Ok false, st1) ->
      iterdir p st
      = (Raise (NotADirectoryError (__repr__ p +:+ " is not a key/directory")),
         st1)) /\
  (forall st1 sk reg_handle w2 h w3 k v x w4 names w5 vnames w6 children,
      is_dir p st = (Ok true, st1) ->
      run (subkey p) (memo st) = Ok sk ->
      ConnectRegistry (computer p) (_key p) (world st1) = (Ok reg_handle, w2) ->
      OpenKey reg_handle sk KEY_READ w2 = (Ok h, w3) ->
      QueryInfoKey h w3 = (Ok (k, v, x), w4) ->
      enum_key_names h (PySeq.range 0 k) w4 = (Ok names, w5) ->
      enum_value_names h (PySeq.range 0 v) w5 = (Ok vnames, w6) ->
      Forall2 (fun n c => run (__truediv__ p n) (memo st) = Ok c) names children ->
      let items := children ++ map (fun n => valued p (Some n)) vnames in
      run (iterdir p) st = Ok items /\
      length names = Z.to_nat k /\
      length children = Z.to_nat k /\
      length vnames = Z.to_nat v /\
      length items = (Z.to_nat k + Z.to_nat v)%nat /\
      world (snd (iterdir p st)) = CloseKey reg_handle (CloseKey h w6) /\
      calls (snd (iterdir p st))
      = calls st1
        ++ [CallConnectRegistry (computer p) (_key p);
            CallOpenKey reg_handle sk KEY_READ;
            CallQueryInfoKey h]
        ++ map (fun i => CallEnumKey h (Z.of_nat i)) (seq 0 (Z.to_nat k))
        ++ map (fun i => CallEnumValue h (Z.of_nat i)) (seq 0 (Z.to_nat v))
        ++ [CallClose h; CallClose reg_handle] /\
      (coherent p (memo st) ->
       sk = subkey_value p /\ children = map (child p) names)).
Proof.
  intros Hp.
  assert (Hc : constructed p) by (exists raw, vn, comp; exact Hp).
  split.
  - intros st1 Hdir. unfold iterdir. rewrite (bind_Ok _ _ _ _ _ Hdir). reflexivity.
  - intros st1 sk reg w2 h w3 k v x w4 names w5 vnames w6 children
           Hdir Hsub Hconn Hopen Hinfo Hkeys Hvals Hall items.
    assert (Hv : value_name p = None).
    { unfold is_dir in Hdir. destruct (value_name p); [discriminate|reflexivity]. }
    assert (Hex : exists_ p st = (Ok true, st1)).
    { unfold is_dir in Hdir. rewrite Hv in Hdir. exact Hdir. }
    destruct (exists_keeps_reads _ _ _ _ Hex) as (Hparts1 & Hsub1).
    destruct (subkey p (memo st1)) as [r m2] eqn:Hsk.
    assert (Hr : r = Ok sk).
    { cbn [fst] in Hsub1. rewrite Hsub1. exact Hsub. }
    subst r.
    pose proof (subkey_keeps_parts _ _ _ _ Hsk) as Hparts2.
    pose proof (enum_key_names_length _ _ _ _ _ Hkeys) as Hlk.
    pose proof (enum_value_names_length _ _ _ _ _ Hvals) as Hlv.
    pose proof (Forall2_length _ _ _ Hall) as Hlc.
    rewrite range_from_zero, length_map, length_seq in Hlk, Hlv.
    set (st2 := mkState m2 w3
                  ((calls st1 ++ [CallConnectRegistry (computer p) (_key p)])
                   ++ [CallOpenKey reg sk (access_mask true false)])).
    set (st3 := mkState m2 w4 (calls st2 ++ [CallQueryInfoKey h])).
    assert (Hparts3 : fst (parts p (memo st3)) = fst (parts p (memo st))).
    { cbn [memo st3]. rewrite Hparts2. exact Hparts1. }
    destruct (iterdir_keys_loop p h (PySeq.range 0 k) st3 names w5 children (memo st)
                Hparts3 Hkeys Hall) as (m3 & Hloop1).
    set (st4 := mkState m3 w5 (calls st3 ++ map (CallEnumKey h) (PySeq.range 0 k))).
    pose proof (iterdir_values_loop p h (PySeq.range 0 v) st4 vnames w6 Hc Hvals)
      as Hloop2.
    assert (Hrun : iterdir p st
                   = (Ok items,
                      close reg (close h
                        (mkState m3 w6
                           (calls st4 ++ map (CallEnumValue h) (PySeq.range 0 v)))))).
    { unfold iterdir. rewrite (bind_Ok _ _ _ _ _ Hdir). cbn [negb].
      rewrite (get_subkey_handle_run _ _ _ _ _ _ _ Hsk). cbv zeta.
      rewrite Hconn. change (access_mask true false) with KEY_READ in *.
      rewrite Hopen. fold st2.
      assert (Hinfo' : query_info_key h st2 = (Ok (k, v, x), st3)).
      { unfold query_info_key, record. cbn [world st2]. rewrite Hinfo. reflexivity. }
      rewrite (bind_Ok _ _ _ _ _ Hinfo').
      fold st4 in Hloop1. rewrite (bind_Ok _ _ _ _ _ Hloop1).
      rewrite (bind_Ok _ _ _ _ _ Hloop2). reflexivity. }
    unfold run. rewrite Hrun. cbn [fst snd].
    split; [reflexivity|]. split; [exact Hlk|]. split; [lia|]. split; [exact Hlv|].
    split; [unfold items; rewrite length_app, !length_map; lia|].
    split; [reflexivity|]. split.
    + unfold close, st4, st3, st2. cbn [calls memo world].
      rewrite !range_from_zero, !map_map, <- !app_assoc. reflexivity.
    + intros Hm. split.
      * destruct (subkey_coherent _ _ Hm) as (m' & Hs & _).
        unfold run in Hsub. rewrite Hs in Hsub. inversion Hsub. reflexivity.
      * exact (children_coherent _ _ _ _ Hc Hv Hm Hall).
Qed.

End StoreFacts.

(** ** The claims on a concrete store *)

(** [exists] on the one-key store: the key, another key, a value of the
    key, a value it does not have; and on the store that refuses. *)
Example exists_on_store :
  let w := Mock.mkStore "Other\Stuff" [] [("v"%string, (PyStr "data", REG_SZ))] in
  let key := mkRegistryPath None None "HKLM\Other\Stuff" HKEY_LOCAL_MACHINE in
  let other := mkRegistryPath None None "HKLM\Other" HKEY_LOCAL_MACHINE in
  run (exists_ key) (Mock.fresh w) = Ok true /\
  run (exists_ other) (Mock.fresh w) = Ok false /\
  run (exists_ (valued key (Some "v"%string))) (Mock.fresh w) = Ok true /\
  run (exists_ (valued key (Some "w"%string))) (Mock.fresh w) = Ok false /\
  run (exists_ key) Denied.fresh = Raise Denied.access_denied.
Proof. repeat split; vm_compute; reflexivity. Qed.

(** The calls [_get_subkey_handle] makes on the one-key store when the
    key is there, and when it is not. *)
Example handles_on_store :
  let w := Mock.mkStore "Other\Stuff" [] [] in
  let key := mkRegistryPath None None "HKLM\Other\Stuff" HKEY_LOCAL_MACHINE in
  let other := mkRegistryPath None None "HKLM\Other" HKEY_LOCAL_MACHINE in
  calls (snd (_get_subkey_handle key true false (fun _ => ret tt) (Mock.fresh w)))
  = [CallConnectRegistry None HKEY_LOCAL_MACHINE;
     CallOpenKey Mock.reg_handle "Other\Stuff" KEY_READ;
     CallClose Mock.key_handle; CallClose Mock.reg_handle] /\
  calls (snd (_get_subkey_handle key true true
                                 (fun _ => raise IndexError : M Mock.store unit)
                                 (Mock.fresh w)))
  = [CallConnectRegistry None HKEY_LOCAL_MACHINE;
     CallOpenKey Mock.reg_handle "Other\Stuff" (Z.lor KEY_READ KEY_WRITE);
     CallClose Mock.key_handle; CallClose Mock.reg_handle] /\
  _get_subkey_handle other true false (fun _ => ret tt) (Mock.fresh w)
  = (Raise Mock.not_found,
     mkState (mkMemo [] [] [] [(other, "Other"%string)]
                     [(other, ["HKLM"; "Other"]%string)]) w
       [CallConnectRegistry None HKEY_LOCAL_MACHINE;
        CallOpenKey Mock.reg_handle "Other" KEY_READ;
        CallClose Mock.reg_handle]).
Proof. repeat split; vm_compute; reflexivity. Qed.

Lemma value_name_required_witness :
  value_name (mkRegistryPath None None "HKLM\Other\Stuff" HKEY_LOCAL_MACHINE) = None /\
  run (unlink (mkRegistryPath None None "HKLM\Other\Stuff" HKEY_LOCAL_MACHINE) false)
      (Mock.fresh (Mock.mkStore "Other\Stuff" [] []))
  = Raise (FileNotFoundError
             "<RegistryPath: HKLM\Other\Stuff> points to a directory/key not a file").
Proof.
  split; [reflexivity|].
  destruct (value_name_required
              (mkRegistryPath None None "HKLM\Other\Stuff" HKEY_LOCAL_MACHINE)
              (Mock.fresh (Mock.mkStore "Other\Stuff" [] [])) false PyNone REG_NONE
              eq_refl) as (_ & _ & _ & Hunlink).
  unfold run. rewrite Hunlink. reflexivity.
Defined.

(** C5 as stated does not hold: on the key path [HKLM\Other\Stuff],
    [registry_type] raises [ValueError] and [unlink] raises
    [FileNotFoundError] -- two different classes of exception. *)
Lemma unlink_error_kind_differs :
  let p := mkRegistryPath None None "HKLM\Other\Stuff" HKEY_LOCAL_MACHINE in
  let st := Mock.fresh (Mock.mkStore "Other\Stuff" [] []) in
  __init__ "HKLM\Other\Stuff" None None = Ok p /\
  ~ (exists e1 e2,
        run (registry_type p) st = Raise e1 /\
        run (unlink p false) st = Raise e2 /\
        class_of e1 = class_of e2).
Proof.
  split; [vm_compute; reflexivity|].
  intros (e1 & e2 & H1 & H2 & Hc).
  vm_compute in H1, H2. inversion H1; inversion H2; subst. discriminate.
Qed.

Lemma write_guessing_table_witness :
  py_or None (value_name (mkRegistryPath None (Some "v"%string) "HKLM\Other\Stuff"
                                         HKEY_LOCAL_MACHINE)) = Some "v"%string /\
  -1 < 0 /\
  write (mkRegistryPath None (Some "v"%string) "HKLM\Other\Stuff" HKEY_LOCAL_MACHINE)
        (PyInt (-1)) None false (Mock.fresh (Mock.mkStore "Other\Stuff" [] []))
  = (Raise (ValueError
       "Guessed an integer type.. but you passed a negative. Numbers in the registry are unsigned."),
     Mock.fresh (Mock.mkStore "Other\Stuff" [] [])).
Proof.
  split; [reflexivity|]. split; [lia|].
  destruct (write_guessing_table
              (mkRegistryPath None (Some "v"%string) "HKLM\Other\Stuff" HKEY_LOCAL_MACHINE)
              None "v" (Mock.fresh (Mock.mkStore "Other\Stuff" [] [])) eq_refl)
    as (_ & _ & _ & _ & _ & _ & _ & Hneg).
  apply Hneg. lia.
Defined.

(** The table of the test suite, run against the store: the type each
    value is written with. *)
Example write_guessing_on_store :
  let p := mkRegistryPath None (Some "v"%string) "HKLM\Other\Stuff" HKEY_LOCAL_MACHINE in
  let st := Mock.fresh (Mock.mkStore "Other\Stuff" [] []) in
  let written value := Mock.values (world (snd (write p value None false st))) in
  written (PyInt 1) = [("v"%string, (PyInt 1, REG_DWORD))] /\
  written (PyInt 0xFFFFFFFFFF) = [("v"%string, (PyInt 0xFFFFFFFFFF, REG_QWORD))] /\
  written (PyStr "hello") = [("v"%string, (PyStr "hello", REG_SZ))] /\
  written (PyStr "%hello%") = [("v"%string, (PyStr "%hello%", REG_EXPAND_SZ))] /\
  written (PyList [PyStr "hi"; PyStr "world"])
  = [("v"%string, (PyList [PyStr "hi"; PyStr "world"], REG_MULTI_SZ))] /\
  written PyNone = [("v"%string, (PyNone, REG_NONE))] /\
  written (PyBytes "123") = [("v"%string, (PyBytes "123", REG_BINARY))] /\
  written (PyInt (-1)) = [].
Proof. repeat split; vm_compute; reflexivity. Qed.

(** C10 (the code departs from the claim).  On the value path [v] of an
    existing key that has a value [v] and no value of the empty name,
    [is_file] without an argument answers true and [is_file] with the
    empty string answers false: the empty string is not treated as the
    argument left out.  [is_file] rebuilds
    the path with the argument as given, not with the value name it has
    settled on, so the empty string does address the value of the empty
    name (the store is asked for it), and leaving the argument out tests
    the key only. *)
Theorem is_file_empty_name_is_not_omitted :
  let p := mkRegistryPath None (Some "v"%string) "HKLM\Other\Stuff" HKEY_LOCAL_MACHINE in
  let st := Mock.fresh (Mock.mkStore "Other\Stuff" []
                                     [("v"%string, (PyStr "data", REG_SZ))]) in
  __init__ "HKLM\Other\Stuff" (Some "v"%string) None = Ok p /\
  run (is_file p None) st = Ok true /\
  run (is_file p (Some EmptyString)) st = Ok false /\
  calls (snd (is_file p (Some EmptyString) st))
  = [CallConnectRegistry None HKEY_LOCAL_MACHINE;
     CallOpenKey Mock.reg_handle "Other\Stuff" KEY_READ;
     CallQueryValueEx Mock.key_handle EmptyString;
     CallClose Mock.key_handle; CallClose Mock.reg_handle] /\
  calls (snd (is_file p None st))
  = [CallConnectRegistry None HKEY_LOCAL_MACHINE;
     CallOpenKey Mock.reg_handle "Other\Stuff" KEY_READ;
     CallClose Mock.key_handle; CallClose Mock.reg_handle].
Proof. repeat split; vm_compute; reflexivity. Qed.

Lemma iterdir_lists_children_witness :
  exists p,
    __init__ "HKLM\Other\Stuff" None None = Ok p /\
    run (iterdir p)
        (Mock.fresh (Mock.mkStore "Other\Stuff" ["0"; "1"; "2"]%string
                       [("0"%string, (PyNone, REG_NONE)); ("1"%string, (PyNone, REG_NONE))]))
    = Ok [mkRegistryPath None None "HKLM\Other\Stuff\0" HKEY_LOCAL_MACHINE;
          mkRegistryPath None None "HKLM\Other\Stuff\1" HKEY_LOCAL_MACHINE;
          mkRegistryPath None None "HKLM\Other\Stuff\2" HKEY_LOCAL_MACHINE;
          mkRegistryPath None (Some "0"%string) "HKLM\Other\Stuff" HKEY_LOCAL_MACHINE;
          mkRegistryPath None (Some "1"%string) "HKLM\Other\Stuff" HKEY_LOCAL_MACHINE].
Proof.
  set (p := mkRegistryPath None None "HKLM\Other\Stuff" HKEY_LOCAL_MACHINE).
  set (w := Mock.mkStore "Other\Stuff" ["0"; "1"; "2"]%string
              [("0"%string, (PyNone, REG_NONE)); ("1"%string, (PyNone, REG_NONE))]).
  exists p. split; [vm_compute; reflexivity|].
  destruct (iterdir_lists_children "HKLM\Other\Stuff" None None p (Mock.fresh w))
    as [_ Hlist].
  - vm_compute. reflexivity.
  - destruct (Hlist (snd (is_dir p (Mock.fresh w))) "Other\Stuff"%string
                    Mock.reg_handle w Mock.key_handle w
                    3 2 0 w ["0"; "1"; "2"]%string w ["0"; "1"]%string w
                    [child p "0"; child p "1"; child p "2"])
      as (Hrun & _); [vm_compute; reflexivity ..| |exact Hrun].
    repeat constructor.
Defined.

(** [iterdir] after a property of a path that prints the same was read:
    the key path [HKLM\x -> a] and the value path [a] of [HKLM\x] share
    their table entries, so that the key opened is [x], the subkey read
    for the value path, and the items are below [HKLM\x\a], its parts;
    the listing is still the [k] subkeys the store reports for the key
    opened, each as [self / name] comes out. *)
Example iterdir_after_lookalike :
  let key := mkRegistryPath None None "HKLM\x -> a" HKEY_LOCAL_MACHINE in
  let value := mkRegistryPath None (Some "a"%string) "HKLM\x" HKEY_LOCAL_MACHINE in
  let read := mkState (snd (subkey value Memo_empty))
                      (Mock.mkStore "x" ["0"; "1"]%string []) [] in
  run (subkey key) (memo read) = Ok "x"%string /\
  run (__truediv__ key "0") (memo read)
  = Ok (mkRegistryPath None None "HKLM\x\a\0" HKEY_LOCAL_MACHINE) /\
  run (iterdir key) read
  = Ok [mkRegistryPath None None "HKLM\x\a\0" HKEY_LOCAL_MACHINE;
        mkRegistryPath None None "HKLM\x\a\1" HKEY_LOCAL_MACHINE].
Proof. repeat split; vm_compute; reflexivity. Qed.

(** * Further properties of the code *)

(** ** The constructor *)

Lemma lower_app s t : PyStr.lower (s +:+ t) = PyStr.lower s +:+ PyStr.lower t.
Proof.
  induction s as [|c s IH]; [reflexivity|].
  change (String (PyStr.lower_ascii c) (PyStr.lower (s +:+ t))
          = String (PyStr.lower_ascii c) (PyStr.lower s +:+ PyStr.lower t)).
  rewrite IH. reflexivity.
Qed.

Lemma lower_length s : String.length (PyStr.lower s) = String.length s.
Proof. induction s as [|c s IH]; cbn; [reflexivity|]. rewrite IH. reflexivity. Qed.

Lemma drop_app s t : PyStr.drop (String.length s) (s +:+ t) = t.
Proof. induction s as [|c s IH]; [destruct t; reflexivity|]. exact IH. Qed.

Lemma string_app_assoc s t u : (s +:+ t) +:+ u = s +:+ (t +:+ u).
Proof.
  induction s as [|c s IH]; [reflexivity|].
  change (String c ((s +:+ t) +:+ u) = String c (s +:+ (t +:+ u))).
  rewrite IH. reflexivity.
Qed.

(** X1.  On an ASCII raw path the constructor raises in three ways
    only: [ValueError], and that exactly for the empty raw path;
    [KeyError], for a leading component that is an alias in another
    letter case than the table's; and [HKeyNotFoundError]. *)
Theorem init_errors raw vn comp e :
  PyStr.is_ascii raw = true ->
  __init__ raw vn comp = Raise e ->
  (raw = EmptyString /\ class_of e = CValueError) \/
  (raw <> EmptyString /\
   exists first, is_Some (REGISTRY_KEYS !! PyStr.upper first) /\
                 REGISTRY_KEYS !! first = None /\ e = KeyError first) \/
  (raw <> EmptyString /\ class_of e = CHKeyNotFoundError).
Proof.
  intros _. unfold __init__. destruct raw as [|c raw].
  - cbn. intros He. inversion He. left. split; reflexivity.
  - cbn [PyStr.is_empty].
    set (raw' := if PyStr.startswith _ _ then _ else _).
    unfold _parse_raw_path.
    pose proof (PyStrFacts.split_nonempty PyStr.backslash raw') as Hne.
    unfold split_path.
    destruct (PyStr.split PyStr.backslash raw') as [|first rest]; [congruence|].
    destruct (REGISTRY_KEYS !! PyStr.upper first) as [k|] eqn:Hup.
    + destruct (REGISTRY_KEYS !! first) as [k'|] eqn:Hk; [discriminate|].
      unfold result_bind. intros He. inversion He. right. left.
      split; [discriminate|].
      exists first. split; [exists k; exact Hup|auto].
    + unfold result_bind. intros He. inversion He. right. right.
      split; [discriminate|reflexivity].
Qed.

Lemma init_errors_witness :
  PyStr.is_ascii "hklm\Software" = true /\
  __init__ "hklm\Software" None None = Raise (KeyError "hklm") /\
  exists first, REGISTRY_KEYS !! first = None /\ KeyError "hklm" = KeyError first.
Proof.
  split; [reflexivity|]. split; [vm_compute; reflexivity|].
  destruct (init_errors "hklm\Software" None None (KeyError "hklm"))
    as [[_ Hc]|[[_ (first & _ & Hnone & He)]|[_ Hc]]].
  - reflexivity.
  - vm_compute. reflexivity.
  - discriminate Hc.
  - exists first. split; assumption.
  - discriminate Hc.
Defined.

(** X2.  An ASCII raw path that starts with the word "computer" in any
    letter case loses that word and the one character after it, whatever
    that character is.  When what is left is not empty and does not
    itself start with that word, the result is that of constructing from
    what is left. *)
Theorem init_strips_computer_prefix pre c rest vn comp :
  PyStr.is_ascii (pre +:+ String c rest) = true ->
  PyStr.lower pre = "computer"%string ->
  rest <> EmptyString ->
  PyStr.startswith "computer" (PyStr.lower rest) = false ->
  __init__ (pre +:+ String c rest) vn comp = __init__ rest vn comp.
Proof.
  intros _ Hpre Hne Hrest. unfold __init__.
  assert (Hlen : String.length pre = 8%nat).
  { rewrite <- (lower_length pre), Hpre. reflexivity. }
  assert (H1 : PyStr.is_empty (pre +:+ String c rest) = false).
  { destruct pre; [discriminate|reflexivity]. }
  assert (H2 : PyStr.startswith "computer" (PyStr.lower (pre +:+ String c rest)) = true).
  { rewrite lower_app, Hpre. reflexivity. }
  assert (H3 : PyStr.drop (String.length "computer" + 1) (pre +:+ String c rest) = rest).
  { change (String.length "computer" + 1)%nat with 9%nat.
    replace (pre +:+ String c rest) with ((pre +:+ String c EmptyString) +:+ rest)
      by (rewrite string_app_assoc; reflexivity).
    replace 9%nat with (String.length (pre +:+ String c EmptyString))
      by (rewrite string_length_app, Hlen; reflexivity).
    apply drop_app. }
  rewrite H1, H2, H3, Hrest.
  destruct rest; [congruence|reflexivity].
Qed.

Lemma init_strips_computer_prefix_witness :
  __init__ "cOmPuTeR/HKLM\Software" None None
  = Ok (mkRegistryPath None None "HKLM\Software" HKEY_LOCAL_MACHINE).
Proof.
  refine (eq_trans (init_strips_computer_prefix "cOmPuTeR" "/" "HKLM\Software"
                                               None None _ _ _ _) _);
    [reflexivity|reflexivity|discriminate|reflexivity|vm_compute; reflexivity].
Defined.

(** X3.  The host is normalised once and for all: normalising again
    changes nothing, and backslashes in front of a host name (other than
    the word "computer") do not count. *)
Theorem host_normal_form comp c :
  normalize_computer (normalize_computer comp) = normalize_computer comp /\
  (PyStr.lower c <> "computer"%string ->
   normalize_computer (Some (String PyStr.backslash c)) = normalize_computer (Some c)).
Proof.
  split; [apply normalize_computer_idem|].
  intros Hc. unfold normalize_computer.
  destruct (String.eqb_spec (PyStr.lower c) "computer") as [Heq|_]; [congruence|].
  reflexivity.
Qed.

Lemma host_normal_form_witness :
  normalize_computer (Some "\\lol"%string) = normalize_computer (Some "lol"%string).
Proof.
  transitivity (normalize_computer (Some "\lol"%string)).
  - apply (host_normal_form None "\lol"). discriminate.
  - apply (host_normal_form None "lol"). discriminate.
Defined.

(** ** Equality *)

Lemma alias_lacks_backslash a k :
  (a, k) ∈ REGISTRY_KEYS_items -> split_path a = [a].
Proof.
  intros Hin. unfold REGISTRY_KEYS_items in Hin.
  repeat (apply elem_of_cons in Hin as [Hin|Hin]; [inversion Hin; reflexivity|]).
  apply elem_of_nil in Hin. contradiction.
Qed.

Lemma alias_in_table a k : (a, k) ∈ REGISTRY_KEYS_items -> REGISTRY_KEYS !! a = Some k.
Proof.
  intros Hin. unfold REGISTRY_KEYS_items in Hin.
  repeat (apply elem_of_cons in Hin as [Hin|Hin];
          [inversion Hin; vm_compute; reflexivity|]).
  apply elem_of_nil in Hin. contradiction.
Qed.

Lemma alias_lengths a1 a2 k :
  (a1, k) ∈ REGISTRY_KEYS_items -> (a2, k) ∈ REGISTRY_KEYS_items ->
  a1 <> a2 -> String.length a1 <> String.length a2.
Proof.
  intros H1 H2. unfold REGISTRY_KEYS_items in H1, H2.
  repeat (apply elem_of_cons in H1 as [H1|H1]; [inversion H1; subst; clear H1|]);
    try (apply elem_of_nil in H1; contradiction);
    repeat (apply elem_of_cons in H2 as [H2|H2];
            [inversion H2; subst; clear H2; try congruence; cbn; intros _; lia|]);
    apply elem_of_nil in H2; contradiction.
Qed.

(** X4.  The short and the long alias of a root lead to the same root
    constant, and yet the two paths are not equal: equality looks at the
    raw path as it was written. *)
Theorem alias_spellings_unequal a1 a2 k rest vn comp :
  (a1, k) ∈ REGISTRY_KEYS_items ->
  (a2, k) ∈ REGISTRY_KEYS_items ->
  a1 <> a2 ->
  exists p1 p2,
    __init__ (a1 +:+ String PyStr.backslash rest) vn comp = Ok p1 /\
    __init__ (a2 +:+ String PyStr.backslash rest) vn comp = Ok p2 /\
    _key p1 = k /\ _key p2 = k /\
    __eq__ p1 p2 = false.
Proof.
  intros H1 H2 Hne.
  assert (Hinit : forall a, (a, k) ∈ REGISTRY_KEYS_items ->
            __init__ (a +:+ String PyStr.backslash rest) vn comp
            = Ok (mkRegistryPath (normalize_computer comp) vn
                                 (a +:+ String PyStr.backslash rest) k)).
  { intros a Ha. eapply init_of_head; [|apply alias_in_table; exact Ha].
    unfold split_path. rewrite PyStrFacts.split_app.
    fold (split_path a). rewrite (alias_lacks_backslash _ _ Ha). reflexivity. }
  eexists _, _. split; [apply Hinit, H1|]. split; [apply Hinit, H2|].
  split; [reflexivity|]. split; [reflexivity|].
  apply neq_by_length. unfold __repr__. cbn.
  rewrite !repr_length, !string_length_app.
  pose proof (alias_lengths _ _ _ H1 H2 Hne). lia.
Qed.

Lemma alias_spellings_unequal_witness :
  exists p1 p2,
    __init__ "HKLM\Software" None None = Ok p1 /\
    __init__ "HKEY_LOCAL_MACHINE\Software" None None = Ok p2 /\
    _key p1 = _key p2 /\ __eq__ p1 p2 = false.
Proof.
  destruct (alias_spellings_unequal "HKLM" "HKEY_LOCAL_MACHINE" HKEY_LOCAL_MACHINE
              "Software" None None)
    as (p1 & p2 & Hp1 & Hp2 & Hk1 & Hk2 & Hneq).
  - unfold REGISTRY_KEYS_items. do 4 right. left.
  - unfold REGISTRY_KEYS_items. do 5 right. left.
  - discriminate.
  - exists p1, p2. split; [exact Hp1|]. split; [exact Hp2|].
    split; [congruence|exact Hneq].
Defined.

(** X5.  Equality and hashing look at the printed form only, and the
    printed form does not tell a value name from the end of the raw path:
    the key path whose raw path ends in [ -> v] is equal to the value path
    [v] of the shorter raw path, whatever their roots. *)
Theorem eq_lookalike raw v comp k k' :
  __eq__ (mkRegistryPath comp None (raw +:+ " -> " +:+ v) k)
         (mkRegistryPath comp (Some v) raw k') = true /\
  __hash__ (mkRegistryPath comp None (raw +:+ " -> " +:+ v) k)
  = __hash__ (mkRegistryPath comp (Some v) raw k').
Proof.
  assert (Hrepr : __repr__ (mkRegistryPath comp None (raw +:+ " -> " +:+ v) k)
                  = __repr__ (mkRegistryPath comp (Some v) raw k')).
  { unfold __repr__, repr_of. cbn. reflexivity. }
  split; [apply eq_iff_repr; exact Hrepr|].
  unfold __hash__. rewrite Hrepr. reflexivity.
Qed.

(** ** Deriving paths *)

(** X6.  [with_value_name] never fails on a constructed path, keeps raw
    path, host and root, and is undone by itself: taking the value name
    off and putting it back gives the path one started from. *)
Theorem with_value_name_roundtrip p v :
  constructed p ->
  with_value_name p v = Ok (valued p v) /\
  result_bind (with_value_name p None)
              (fun q => with_value_name q (value_name p)) = Ok p.
Proof.
  intros Hc. split; [apply with_value_name_constructed; exact Hc|].
  rewrite (with_value_name_constructed _ None Hc). unfold result_bind.
  rewrite (with_value_name_constructed _ _ (valued_constructed _ None Hc)).
  destruct p. reflexivity.
Qed.

Lemma with_value_name_roundtrip_witness :
  constructed (mkRegistryPath (Some "\\steve"%string) (Some "v"%string)
                              "HKLM\Other\Stuff" HKEY_LOCAL_MACHINE) /\
  with_value_name (mkRegistryPath (Some "\\steve"%string) (Some "v"%string)
                                  "HKLM\Other\Stuff" HKEY_LOCAL_MACHINE) None
  = Ok (mkRegistryPath (Some "\\steve"%string) None "HKLM\Other\Stuff"
                       HKEY_LOCAL_MACHINE).
Proof.
  assert (Hc : constructed (mkRegistryPath (Some "\\steve"%string) (Some "v"%string)
                              "HKLM\Other\Stuff" HKEY_LOCAL_MACHINE)).
  { exists "HKLM\Other\Stuff"%string, (Some "v"%string), (Some "steve"%string).
    vm_compute. reflexivity. }
  split; [exact Hc|].
  apply (with_value_name_roundtrip _ None Hc).
Defined.

(** X7.  Read while the memo tables are coherent for the path, the
    parts of a constructed key path, joined with backslashes and handed
    to the constructor with the host of the path, give the path back. *)
Theorem parts_rebuild p m :
  constructed p ->
  value_name p = None ->
  coherent p m ->
  run (ps <- parts p ;; lift (__init__ (join_path ps) None (computer p))) m = Ok p.
Proof.
  intros Hc Hv Hm. unfold run.
  destruct (parts_coherent _ _ Hm) as (m1 & Hp & _).
  rewrite (bind_Ok _ _ _ _ _ Hp). unfold lift, parts_body. rewrite Hv. cbn [fst].
  unfold join_path, _path_split, split_path. rewrite PyStrFacts.join_split.
  fold (with_value_name p None). rewrite (with_value_name_constructed _ _ Hc).
  unfold valued. destruct p. cbn in *. rewrite Hv. reflexivity.
Qed.

Lemma parts_rebuild_witness :
  run (ps <- parts (mkRegistryPath (Some "\\lol"%string) None "HKLM\Other\\Stuff"
                                   HKEY_LOCAL_MACHINE) ;;
       lift (__init__ (join_path ps) None (Some "\\lol"%string))) Memo_empty
  = Ok (mkRegistryPath (Some "\\lol"%string) None "HKLM\Other\\Stuff"
                       HKEY_LOCAL_MACHINE).
Proof.
  apply (parts_rebuild (mkRegistryPath (Some "\\lol"%string) None "HKLM\Other\\Stuff"
                                       HKEY_LOCAL_MACHINE) Memo_empty).
  - exists "HKLM\Other\\Stuff"%string, None, (Some "lol"%string). vm_compute. reflexivity.
  - reflexivity.
  - apply coherent_empty.
Defined.

Lemma child_child p a b :
  child (child p a) b = child p (a +:+ "\" +:+ b).
Proof.
  unfold child. cbn. f_equal.
  change ("\" +:+ a) with (String PyStr.backslash a).
  change ("\" +:+ b) with (String PyStr.backslash b).
  change ("\" +:+ a +:+ String PyStr.backslash b)
    with (String PyStr.backslash (a +:+ String PyStr.backslash b)).
  rewrite string_app_assoc. reflexivity.
Qed.

(** X8.  Concatenation composes: on memo tables coherent for the key
    path [p] and for [child p a], [p / a / b] is [p / (a + "\" + b)],
    for any two names, with or without backslashes in them. *)
Theorem truediv_compose p a b m :
  constructed p ->
  value_name p = None ->
  coherent p m ->
  coherent (child p a) m ->
  run (q <- __truediv__ p a ;; __truediv__ q b) m
  = run (__truediv__ p (a +:+ "\" +:+ b)) m /\
  run (__truediv__ p (a +:+ "\" +:+ b)) m = Ok (child p (a +:+ "\" +:+ b)).
Proof.
  intros Hc Hv Hm Hma. unfold run.
  destruct (truediv_coherent p (a +:+ "\" +:+ b) m Hc Hv Hm) as (m0 & Hab & _).
  rewrite Hab. cbn [fst]. split; [|reflexivity].
  destruct (parts_coherent _ _ Hm) as (m1 & Hp & _).
  assert (Hdiv : __truediv__ p a m = (Ok (child p a), m1)).
  { unfold __truediv__. rewrite Hv, (bind_Ok _ _ _ _ _ Hp). unfold lift, parts_body.
    rewrite Hv, init_child by assumption. reflexivity. }
  assert (Hm1 : coherent (child p a) m1).
  { eapply parts_keeps_other; [apply child_neq, Hv|exact Hp|exact Hma]. }
  rewrite (bind_Ok _ _ _ _ _ Hdiv).
  destruct (truediv_coherent (child p a) b m1 (child_constructed _ a Hc) eq_refl Hm1)
    as (m2 & -> & _).
  cbn [fst]. rewrite child_child. reflexivity.
Qed.

Lemma truediv_compose_witness :
  run (q <- __truediv__ (mkRegistryPath None None "HKLM" HKEY_LOCAL_MACHINE) "Other" ;;
       __truediv__ q "Stuff") Memo_empty
  = Ok (mkRegistryPath None None "HKLM\Other\Stuff" HKEY_LOCAL_MACHINE).
Proof.
  destruct (truediv_compose (mkRegistryPath None None "HKLM" HKEY_LOCAL_MACHINE)
              "Other" "Stuff" Memo_empty) as [H1 H2].
  - exists "HKLM"%string, None, None. vm_compute. reflexivity.
  - reflexivity.
  - apply coherent_empty.
  - apply coherent_empty.
  - rewrite H1, H2. reflexivity.
Defined.

Lemma last_snoc_default {A} (l : list A) x d : List.last (l ++ [x]) d = x.
Proof. apply List.last_last. Qed.

(** X9.  On memo tables coherent for the key path [p] and for
    [child p n], the name of [p / n] is [n], for a name without
    backslash. *)
Theorem name_of_child p n m :
  constructed p ->
  value_name p = None ->
  PyStr.lacks PyStr.backslash n = true ->
  coherent p m ->
  coherent (child p n) m ->
  run (q <- __truediv__ p n ;; name q) m = Ok n.
Proof.
  intros Hc Hv Hn Hm Hmn. unfold run.
  destruct (parts_coherent _ _ Hm) as (m1 & Hp & _).
  assert (Hdiv : __truediv__ p n m = (Ok (child p n), m1)).
  { unfold __truediv__. rewrite Hv, (bind_Ok _ _ _ _ _ Hp). unfold lift, parts_body.
    rewrite Hv, init_child by assumption. reflexivity. }
  assert (Hm1 : coherent (child p n) m1).
  { eapply parts_keeps_other; [apply child_neq, Hv|exact Hp|exact Hmn]. }
  rewrite (bind_Ok _ _ _ _ _ Hdiv).
  destruct (name_coherent _ _ Hm1) as (m2 & -> & _). cbn [fst]. f_equal.
  unfold name_value. cbn [value_name child].
  pose proof (child_parts p n Hn) as Hparts. unfold parts_body in Hparts.
  cbn [value_name child] in Hparts. rewrite Hparts. apply last_snoc_default.
Qed.

Lemma name_of_child_witness :
  run (q <- __truediv__ (mkRegistryPath None None "HKLM\Other" HKEY_LOCAL_MACHINE)
                        "Stuff" ;; name q) Memo_empty = Ok "Stuff"%string.
Proof.
  apply (name_of_child (mkRegistryPath None None "HKLM\Other" HKEY_LOCAL_MACHINE)
                       "Stuff" Memo_empty).
  - exists "HKLM\Other"%string, None, None. vm_compute. reflexivity.
  - reflexivity.
  - reflexivity.
  - apply coherent_empty.
  - apply coherent_empty.
Defined.

(** X10.  Read while the memo tables are coherent for the paths: the
    subkey leaves out the root alias and the value name.  A value path
    has the subkey of the key that holds it, the subkey is the segments
    joined by backslashes, and the raw path is the alias alone when
    there are no segments, and the alias, a backslash and the subkey
    otherwise. *)
Theorem subkey_of_value_and_raw p v m m' alias :
  coherent p m ->
  coherent (valued p v) m' ->
  head (components p) = Some alias ->
  run (subkey (valued p v)) m' = run (subkey p) m /\
  run (subkey p) m = Ok (join_path (segments p)) /\
  _raw_path p = match segments p with
                | [] => alias
                | _ :: _ => alias +:+ "\" +:+ join_path (segments p)
                end.
Proof.
  intros Hm Hm' Ha. unfold run.
  destruct (subkey_coherent _ _ Hm) as (m1 & -> & _).
  destruct (subkey_coherent _ _ Hm') as (m2 & -> & _).
  cbn [fst]. unfold subkey_value, segments, components, _path_split in *.
  cbn [_raw_path valued].
  split; [reflexivity|]. split; [reflexivity|].
  rewrite <- (PyStrFacts.join_split PyStr.backslash (_raw_path p)) at 1.
  fold (split_path (_raw_path p)).
  destruct (split_path (_raw_path p)) as [|a rest]; [discriminate|].
  inversion Ha; subst. cbn [tail]. destruct rest; reflexivity.
Qed.

Lemma subkey_of_value_and_raw_witness :
  run (subkey (mkRegistryPath None (Some "v"%string) "HKLM\Other\Stuff"
                              HKEY_LOCAL_MACHINE)) Memo_empty
  = Ok "Other\Stuff"%string.
Proof.
  destruct (subkey_of_value_and_raw
              (mkRegistryPath None None "HKLM\Other\Stuff" HKEY_LOCAL_MACHINE)
              (Some "v"%string) Memo_empty Memo_empty "HKLM") as (H1 & H2 & _).
  - apply coherent_empty.
  - apply coherent_empty.
  - reflexivity.
  - etransitivity; [exact H1|exact H2].
Defined.

(** X11.  Read while the memo tables are coherent for it, the parent of
    a constructed value path is the key path of its raw path, on the
    local machine. *)
Theorem parent_of_value_path p v m :
  constructed p ->
  value_name p = Some v ->
  coherent p m ->
  run (parent p) m = Ok (mkRegistryPath None None (_raw_path p) (_key p)).
Proof.
  intros Hc Hv Hm. unfold run.
  assert (Hq : head (ancestors p)
               = Some (mkRegistryPath None None (_raw_path p) (_key p))).
  { unfold ancestors. rewrite parts_body_length, Hv.
    replace (S (length (components p)) - 1)%nat with (length (components p)) by lia.
    assert (Hseg : exists n, length (components p) = S n).
    { unfold components, _path_split, split_path.
      pose proof (PyStrFacts.split_nonempty PyStr.backslash (_raw_path p)).
      destruct (PyStr.split PyStr.backslash (_raw_path p)); [congruence|].
      eexists. reflexivity. }
    destruct Hseg as (n & Hn). rewrite Hn. cbn [seq map head]. f_equal.
    unfold ancestor. f_equal.
    replace (S (S n) - 1)%nat with (length (components p)) by lia.
    unfold parts_body. rewrite Hv. unfold components. rewrite take_app_length.
    unfold join_path, _path_split, split_path. apply PyStrFacts.join_split. }
  destruct (parent_coherent _ _ _ Hc Hm Hq) as (m' & -> & _). reflexivity.
Qed.

Lemma parent_of_value_path_witness :
  run (parent (mkRegistryPath (Some "\\lol"%string) (Some "v"%string)
                              "HKLM\Other" HKEY_LOCAL_MACHINE)) Memo_empty
  = Ok (mkRegistryPath None None "HKLM\Other" HKEY_LOCAL_MACHINE).
Proof.
  apply (parent_of_value_path
           (mkRegistryPath (Some "\\lol"%string) (Some "v"%string)
                           "HKLM\Other" HKEY_LOCAL_MACHINE) "v" Memo_empty).
  - exists "HKLM\Other"%string, (Some "v"%string), (Some "lol"%string).
    vm_compute. reflexivity.
  - reflexivity.
  - apply coherent_empty.
Defined.

(** X12.  A path that is a root alias alone has no ancestors, and asking
    for its parent raises [IndexError]. *)
Theorem parent_of_root p alias m :
  constructed p ->
  value_name p = None ->
  components p = [alias] ->
  coherent p m ->
  run (parents p) m = Ok [] /\ run (parent p) m = Raise IndexError.
Proof.
  intros Hc Hv Hs Hm. unfold run.
  assert (Hanc : ancestors p = []).
  { unfold ancestors. rewrite parts_body_length, Hv, Hs. reflexivity. }
  destruct (parents_coherent _ _ Hc Hm) as (m1 & Hps & _).
  rewrite Hps, Hanc. split; [reflexivity|].
  unfold parent, lru_cache.
  destruct Hm as (_ & _ & _ & _ & Hparent).
  destruct (Lru.get p (slot_get parent_slot m)) as [q|] eqn:Hget.
  - apply Hparent in Hget. rewrite Hanc in Hget. discriminate.
  - rewrite (bind_Ok _ _ _ _ _ Hps), Hanc. reflexivity.
Qed.

Lemma parent_of_root_witness :
  run (parent (mkRegistryPath None None "HKLM" HKEY_LOCAL_MACHINE)) Memo_empty
  = Raise IndexError.
Proof.
  apply (parent_of_root (mkRegistryPath None None "HKLM" HKEY_LOCAL_MACHINE)
                        "HKLM" Memo_empty).
  - exists "HKLM"%string, None, None. vm_compute. reflexivity.
  - reflexivity.
  - reflexivity.
  - apply coherent_empty.
Defined.

(** ** Memoisation *)

(** X13.  What a memoised property has returned for a path it returns
    again, for that path and for every path equal to it, whatever the
    fields of the other path: the tables are keyed by equality. *)
Theorem memo_second_read a b m :
  __eq__ a b = true ->
  (forall v m1, parts a m = (Ok v, m1) -> run (parts b) m1 = Ok v) /\
  (forall v m1, subkey a m = (Ok v, m1) -> run (subkey b) m1 = Ok v) /\
  (forall v m1, name a m = (Ok v, m1) -> run (name b) m1 = Ok v) /\
  (forall v m1, parents a m = (Ok v, m1) -> run (parents b) m1 = Ok v) /\
  (forall v m1, parent a m = (Ok v, m1) -> run (parent b) m1 = Ok v).
Proof.
  intros Hab. repeat split; intros v m1 Hrun.
  - eapply lru_cache_again; [reflexivity| |exact Hrun|exact Hab].
    intros r m0 Hb. inversion Hb. reflexivity.
  - eapply lru_cache_again; [reflexivity| |exact Hrun|exact Hab].
    intros r m0. destruct (value_name a);
      (apply (bind_frame subkey_cache);
       [intros r1 m2 Hp; apply (parts_frame _ _ _ _ Hp)
       |intros ps m2 r1 m3 Hl; inversion Hl; reflexivity]).
  - eapply lru_cache_again; [reflexivity| |exact Hrun|exact Hab].
    intros r m0. destruct (value_name a).
    + intros Hl. inversion Hl. reflexivity.
    + apply (bind_frame name_cache).
      * intros r1 m2 Hp. apply (parts_frame _ _ _ _ Hp).
      * intros ps m2 r1 m3. destruct (last ps); intros Hl; inversion Hl; reflexivity.
  - eapply lru_cache_again; [reflexivity| |exact Hrun|exact Hab].
    intros r m0. apply (bind_frame parents_cache).
    + intros r1 m2 Hp. apply (parts_frame _ _ _ _ Hp).
    + intros ps m2 r1 m3. apply (for_each_frame parents_cache).
      intros i m4 r2 m5. apply (bind_frame parents_cache).
      * intros r3 m6 Hp. apply (parts_frame _ _ _ _ Hp).
      * intros ps' m6 r3 m7 Hl. inversion Hl. reflexivity.
  - eapply lru_cache_again; [reflexivity| |exact Hrun|exact Hab].
    intros r m0. apply (bind_frame parent_cache).
    + intros r1 m2 Hp. apply (parents_frame _ _ _ _ Hp).
    + intros ps m2 r1 m3. destruct ps; intros Hl; inversion Hl; reflexivity.
Qed.

Lemma memo_second_read_witness :
  __eq__ (mkRegistryPath None None "HKLM\x -> a" HKEY_LOCAL_MACHINE)
         (mkRegistryPath None (Some "a"%string) "HKLM\x" HKEY_LOCAL_MACHINE) = true /\
  run (parts (mkRegistryPath None (Some "a"%string) "HKLM\x" HKEY_LOCAL_MACHINE))
      (snd (parts (mkRegistryPath None None "HKLM\x -> a" HKEY_LOCAL_MACHINE)
                  Memo_empty))
  = Ok ["HKLM"; "x -> a"]%string.
Proof.
  split; [vm_compute; reflexivity|].
  destruct (memo_second_read
              (mkRegistryPath None None "HKLM\x -> a" HKEY_LOCAL_MACHINE)
              (mkRegistryPath None (Some "a"%string) "HKLM\x" HKEY_LOCAL_MACHINE)
              Memo_empty) as (Hparts & _).
  - vm_compute. reflexivity.
  - apply Hparts. vm_compute. reflexivity.
Defined.

(** ** Registry operations *)

Section MoreStoreFacts.

Context {W : Type} `{Winreg W}.

(** X14.  [unlink] on a value path opens the key for reading and
    writing, asks the store to delete the value, and closes both handles
    whatever the answer.  [missing_ok] only covers a [FileNotFoundError]
    of the deletion itself: when the key cannot be opened, that error is
    raised, [missing_ok] or not; and any other error of the deletion is
    raised as well. *)
Theorem unlink_outcomes p v missing_ok st :
  value_name p = Some v ->
  exists sk m1,
    subkey p (memo st) = (Ok sk, m1) /\
    let rw := Z.lor KEY_READ KEY_WRITE in
    let connect := CallConnectRegistry (computer p) (_key p) in
    match ConnectRegistry (computer p) (_key p) (world st) with
    | (Raise e, _) => run (unlink p missing_ok) st = Raise e
    | (Ok reg_handle, w1) =>
        match OpenKey reg_handle sk rw w1 with
        | (Raise e, _) => run (unlink p missing_ok) st = Raise e
        | (Ok h, w2) =>
            let (r, w3) := DeleteValue h v w2 in
            unlink p missing_ok st
            = (match r with
               | Ok _ => Ok tt
               | Raise e =>
                   if is_FileNotFoundError e && missing_ok then Ok tt else Raise e
               end,
               mkState m1 (CloseKey reg_handle (CloseKey h w3))
                       (calls st ++ [connect; CallOpenKey reg_handle sk rw;
                                     CallDeleteValue h v;
                                     CallClose h; CallClose reg_handle]))
        end
    end.
Proof.
  intros Hv. destruct (subkey_total p (memo st)) as (sk & m1 & Hsk).
  exists sk, m1. split; [exact Hsk|]. cbv zeta.
  unfold run, unlink. rewrite Hv, (get_subkey_handle_run _ _ _ _ _ _ _ Hsk). cbv zeta.
  change (access_mask true true) with (Z.lor KEY_READ KEY_WRITE).
  destruct (ConnectRegistry (computer p) (_key p) (world st)) as [[reg|e] w1];
    [|reflexivity].
  destruct (OpenKey reg sk (Z.lor KEY_READ KEY_WRITE) w1) as [[h|e] w2];
    [|reflexivity].
  unfold try_except_FileNotFoundError, delete_value, record. cbn [memo world calls].
  destruct (DeleteValue h v w2) as [[[]|e] w3].
  - unfold close. cbn [memo world calls]. rewrite <- !app_assoc. reflexivity.
  - destruct (is_FileNotFoundError e), missing_ok; cbn;
      unfold close; cbn [memo world calls]; rewrite <- !app_assoc; reflexivity.
Qed.

(** X15.  With [read_type] on, [write] first asks for the type of the
    value it is about to write.  If the store has one, that type is used
    as it is, whatever the Python value -- nothing is guessed and no
    integer is refused.  If asking raises [FileNotFoundError], [write]
    goes on as with [read_type] off.  Any other error is raised. *)
Theorem write_reads_type p value value_name' vname st :
  constructed p ->
  py_or value_name' (value_name p) = Some vname ->
  write p value value_name' true st =
    match registry_type (valued p (Some vname)) st with
    | (Ok typ, st1) => write_raw p value typ (Some vname) st1
    | (Raise e, st1) =>
        if is_FileNotFoundError e then write p value value_name' false st1
        else (Raise e, st1)
    end.
Proof.
  intros Hc Hv. unfold write. rewrite Hv.
  unfold bind at 1. unfold try_except_FileNotFoundError.
  unfold bind at 1. unfold lift at 1.
  rewrite (with_value_name_constructed _ _ Hc).
  unfold bind at 1.
  destruct (registry_type (valued p (Some vname)) st) as [[typ|e] st1].
  - reflexivity.
  - destruct (is_FileNotFoundError e); reflexivity.
Qed.

(** What [_get_subkey_handle] does depends on the path through its host,
    its root and its subkey only. *)
Lemma get_subkey_handle_same {A} p q reads writes (body : handle -> M W A) st sk mp mq :
  computer p = computer q ->
  _key p = _key q ->
  subkey p (memo st) = (Ok sk, mp) ->
  subkey q (memo st) = (Ok sk, mq) ->
  (forall h m m' w c,
      fst (body h (mkState m w c)) = fst (body h (mkState m' w c)) /\
      world (snd (body h (mkState m w c))) = world (snd (body h (mkState m' w c))) /\
      calls (snd (body h (mkState m w c))) = calls (snd (body h (mkState m' w c)))) ->
  let r1 := _get_subkey_handle p reads writes body st in
  let r2 := _get_subkey_handle q reads writes body st in
  fst r1 = fst r2 /\ world (snd r1) = world (snd r2) /\ calls (snd r1) = calls (snd r2).
Proof.
  intros Hcomp Hkey Hp Hq Hbody. cbv zeta.
  rewrite (get_subkey_handle_run _ _ _ _ _ _ _ Hp),
          (get_subkey_handle_run _ _ _ _ _ _ _ Hq). cbv zeta.
  rewrite Hcomp, Hkey.
  destruct (ConnectRegistry (computer q) (_key q) (world st)) as [[reg|e] w1];
    [|repeat split].
  destruct (OpenKey reg sk (access_mask reads writes) w1) as [[h|e] w2];
    [|repeat split].
  match goal with
  | |- context [body h (mkState mp ?w ?c)] =>
      destruct (Hbody h mp mq w c) as (H1 & H2 & H3);
      destruct (body h (mkState mp w c)) as [r1 s1];
      destruct (body h (mkState mq w c)) as [r2 s2]
  end.
  cbn in *. subst. unfold close. cbn. rewrite H2, H3. repeat split.
Qed.

(** X16.  For a name [n] that is not empty, and on memo tables coherent
    for the key path and for its value path [n]: reading or writing the
    value [n] of a key through the key path with [n] as the argument, or
    through the value path [n] without an argument, is the same thing to
    the store: same calls, same answers, same store afterwards. *)
Theorem value_by_argument_or_by_path p n value typ st :
  constructed p ->
  n <> EmptyString ->
  coherent p (memo st) ->
  coherent (valued p (Some n)) (memo st) ->
  let same {A} (r1 r2 : result A * State W) :=
    fst r1 = fst r2 /\ world (snd r1) = world (snd r2)
    /\ calls (snd r1) = calls (snd r2) in
  same (read_raw p (Some n) st) (read_raw (valued p (Some n)) None st) /\
  same (write_raw p value typ (Some n) st)
       (write_raw (valued p (Some n)) value typ None st).
Proof.
  intros Hc Hn Hm Hmq. cbv zeta.
  destruct (subkey_coherent _ _ Hm) as (mp & Hp & _).
  destruct (subkey_coherent _ _ Hmq) as (mq & Hq & _).
  change (subkey_value (valued p (Some n))) with (subkey_value p) in Hq.
  assert (Hor : py_or (Some n) (value_name p) = Some n).
  { unfold py_or. destruct n; [congruence|reflexivity]. }
  unfold read_raw, write_raw. rewrite Hor. cbn [py_or value_name valued].
  split.
  - apply (get_subkey_handle_same p (valued p (Some n)) true false _ st (subkey_value p) mp mq);
      try reflexivity; try assumption.
    intros h m m' w c. unfold query_value_ex, record. cbn [memo world calls].
    destruct (QueryValueEx h n w); repeat split.
  - apply (get_subkey_handle_same p (valued p (Some n)) true true _ st (subkey_value p) mp mq);
      try reflexivity; try assumption.
    intros h m m' w c. unfold set_value_ex, record. cbn [memo world calls].
    destruct (SetValueEx h n 0 typ value w); repeat split.
Qed.

(** X17.  For any store, and on memo tables coherent for the key path
    and for its value path: if [exists] is true of the value path, it is
    true of the key path, asked from the same state. *)
Theorem exists_value_then_key p v st :
  value_name p = None ->
  coherent p (memo st) ->
  coherent (valued p (Some v)) (memo st) ->
  run (exists_ (valued p (Some v))) st = Ok true ->
  run (exists_ p) st = Ok true.
Proof.
  intros Hv Hm Hmq Hex.
  apply (proj1 (exists_spec _ _)) in Hex. apply (proj1 (exists_spec _ _)).
  unfold probe in *. cbn [computer _key valued value_name] in Hex.
  destruct (subkey_coherent _ _ Hm) as (mp & Hp & _).
  destruct (subkey_coherent _ _ Hmq) as (mq & Hq & _).
  change (subkey_value (valued p (Some v))) with (subkey_value p) in Hq.
  rewrite Hq in Hex. rewrite Hp, Hv.
  destruct (ConnectRegistry (computer p) (_key p) (world st)) as [[reg|e] w1];
    [|exact Hex].
  destruct (OpenKey reg (subkey_value p) KEY_READ w1) as [[h|e] w2];
    [reflexivity|exact Hex].
Qed.

End MoreStoreFacts.

Lemma unlink_outcomes_witness :
  let p := mkRegistryPath None (Some "v"%string) "HKLM\Other\Stuff" HKEY_LOCAL_MACHINE in
  value_name p = Some "v"%string /\
  run (unlink p true) (Mock.fresh (Mock.mkStore "Other\Stuff" [] [])) = Ok tt /\
  run (unlink p true) (Mock.fresh (Mock.mkStore "Elsewhere" [] []))
  = Raise Mock.not_found.
Proof.
  intros p. split; [reflexivity|]. split.
  - set (st := Mock.fresh (Mock.mkStore "Other\Stuff" [] [])).
    destruct (unlink_outcomes p "v" true st eq_refl) as (sk & m1 & Hsk & Hrun).
    vm_compute in Hsk. injection Hsk as Hs Hm. subst sk m1.
    assert (Hrun' : unlink p true st = (Ok tt, snd (unlink p true st))) by exact Hrun.
    exact (f_equal fst Hrun').
  - set (st := Mock.fresh (Mock.mkStore "Elsewhere" [] [])).
    destruct (unlink_outcomes p "v" true st eq_refl) as (sk & m1 & Hsk & Hrun).
    vm_compute in Hsk. injection Hsk as Hs Hm. subst sk m1.
    exact Hrun.
Defined.

Lemma write_reads_type_witness :
  let p := mkRegistryPath None (Some "v"%string) "HKLM\Other\Stuff" HKEY_LOCAL_MACHINE in
  let w := Mock.mkStore "Other\Stuff" [] [("v"%string, (PyInt 7, REG_QWORD))] in
  constructed p /\
  py_or None (value_name p) = Some "v"%string /\
  Mock.values (world (snd (write p (PyInt (-1)) None true (Mock.fresh w))))
  = [("v"%string, (PyInt (-1), REG_QWORD))].
Proof.
  intros p w.
  assert (Hc : constructed p).
  { exists "HKLM\Other\Stuff"%string, (Some "v"%string), None. vm_compute. reflexivity. }
  split; [exact Hc|]. split; [reflexivity|].
  rewrite (write_reads_type p (PyInt (-1)) None "v" (Mock.fresh w) Hc eq_refl).
  vm_compute. reflexivity.
Defined.

Lemma exists_value_then_key_witness :
  let p := mkRegistryPath None None "HKLM\Other\Stuff" HKEY_LOCAL_MACHINE in
  let st := Mock.fresh (Mock.mkStore "Other\Stuff" [] [("v"%string, (PyNone, REG_NONE))]) in
  run (exists_ (valued p (Some "v"%string))) st = Ok true /\
  run (exists_ p) st = Ok true.
Proof.
  intros p st. split; [vm_compute; reflexivity|].
  apply (exists_value_then_key p "v" st).
  - reflexivity.
  - apply coherent_empty.
  - apply coherent_empty.
  - vm_compute. reflexivity.
Defined.

Lemma value_by_argument_or_by_path_witness :
  let p := mkRegistryPath None None "HKLM\Other\Stuff" HKEY_LOCAL_MACHINE in
  let st := Mock.fresh (Mock.mkStore "Other\Stuff" [] [("n"%string, (PyInt 1, REG_DWORD))]) in
  run (read_raw p (Some "n"%string)) st = run (read_raw (valued p (Some "n"%string)) None) st /\
  run (read_raw p (Some "n"%string)) st = Ok (PyInt 1, REG_DWORD).
Proof.
  intros p st. split; [|vm_compute; reflexivity].
  destruct (value_by_argument_or_by_path p "n" PyNone REG_NONE st) as [[Hread _] _].
  - exists "HKLM\Other\Stuff"%string, None, None. vm_compute. reflexivity.
  - discriminate.
  - apply coherent_empty.
  - apply coherent_empty.
  - exact Hread.
Defined.

(** ** Creating and removing keys *)

(** Reading a property of [a] keeps the tables coherent for an unequal
    [b]. *)
Lemma bind_keeps {A B} (I : Memo -> Prop) (f : St Memo A) (k : A -> St Memo B) m r m' :
  (forall r0 m0, f m = (r0, m0) -> I m0) ->
  (forall x m0 r0 m1, I m0 -> k x m0 = (r0, m1) -> I m1) ->
  bind f k m = (r, m') -> I m'.
Proof.
  intros Hf Hk. unfold bind. destruct (f m) as [[x|e] m0] eqn:Hfm.
  - intros Hrun. exact (Hk _ _ _ _ (Hf _ _ eq_refl) Hrun).
  - intros Hrun. inversion Hrun; subst. exact (Hf _ _ eq_refl).
Qed.

Lemma for_each_keeps {A B} (I : Memo -> Prop) (l : list A) (f : A -> St Memo B) m r m' :
  (forall x m0 r0 m1, I m0 -> f x m0 = (r0, m1) -> I m1) ->
  I m -> for_each l f m = (r, m') -> I m'.
Proof.
  intros Hf. revert m r m'. induction l as [|x l IH]; intros m r m' Hm; cbn [for_each].
  - intros Hrun. inversion Hrun; subst. exact Hm.
  - apply bind_keeps; [intros r0 m0; apply Hf; exact Hm|].
    intros y m0 r0 m1 Hm0. apply bind_keeps; [intros r1 m2; apply IH; exact Hm0|].
    intros ys m2 r1 m3 Hm2 Hret. inversion Hret; subst. exact Hm2.
Qed.

Lemma lru_cache_keeps_other {V} (s : slot V) a b (body : St Memo V) m r m' :
  __eq__ a b = false ->
  (forall c m0, coherent b m0 ->
                (forall P, holds (slot_get s m0) b P -> holds c b P) ->
                coherent b (slot_set s c m0)) ->
  (forall r0 m0, body m = (r0, m0) -> coherent b m0) ->
  coherent b m ->
  lru_cache s a body m = (r, m') -> coherent b m'.
Proof.
  intros Hab Hset Hbody Hm. unfold lru_cache.
  destruct (Lru.get a (slot_get s m)) as [v|].
  - intros Hrun. inversion Hrun; subst. apply Hset; [assumption|].
    intros P. apply LruOther.holds_touch_other. assumption.
  - destruct (body m) as [[v|e] m0] eqn:Hb; intros Hrun; inversion Hrun; subst.
    + apply Hset; [exact (Hbody _ _ eq_refl)|].
      intros P. apply LruOther.holds_add_other. assumption.
    + exact (Hbody _ _ eq_refl).
Qed.

Ltac keeps_slot :=
  let c := fresh "c" in let m0 := fresh "m" in
  let Hm := fresh "Hm" in let Hc := fresh "Hc" in
  intros c m0 Hm Hc; unfold coherent in *; cbn in *;
  destruct Hm as (? & ? & ? & ? & ?); repeat split;
  try assumption; apply Hc; assumption.

Lemma subkey_keeps_other a b m r m' :
  __eq__ a b = false ->
  coherent b m -> subkey a m = (r, m') -> coherent b m'.
Proof.
  intros Hab Hm. unfold subkey. apply lru_cache_keeps_other; try assumption.
  - keeps_slot.
  - intros r0 m0. destruct (value_name a);
      (apply (bind_keeps (coherent b));
       [intros r1 m1 Hp; exact (parts_keeps_other _ _ _ _ _ Hab Hp Hm)
       |intros ps m1 r1 m2 Hm1 Hl; inversion Hl; subst; exact Hm1]).
Qed.

Lemma name_keeps_other a b m r m' :
  __eq__ a b = false ->
  coherent b m -> name a m = (r, m') -> coherent b m'.
Proof.
  intros Hab Hm. unfold name. apply lru_cache_keeps_other; try assumption.
  - keeps_slot.
  - intros r0 m0. destruct (value_name a).
    + intros Hl. inversion Hl; subst. exact Hm.
    + apply (bind_keeps (coherent b)).
      * intros r1 m1 Hp. exact (parts_keeps_other _ _ _ _ _ Hab Hp Hm).
      * intros ps m1 r1 m2 Hm1. destruct (last ps); intros Hl; inversion Hl; subst;
          exact Hm1.
Qed.

Lemma parents_keeps_other a b m r m' :
  __eq__ a b = false ->
  coherent b m -> parents a m = (r, m') -> coherent b m'.
Proof.
  intros Hab Hm. unfold parents. apply lru_cache_keeps_other; try assumption.
  - keeps_slot.
  - intros r0 m0. apply (bind_keeps (coherent b)).
    + intros r1 m1 Hp. exact (parts_keeps_other _ _ _ _ _ Hab Hp Hm).
    + intros ps m1 r1 m2 Hm1. apply (for_each_keeps (coherent b)); [|exact Hm1].
      intros i m3 r2 m4 Hm3. apply (bind_keeps (coherent b)).
      * intros r3 m5 Hp. exact (parts_keeps_other _ _ _ _ _ Hab Hp Hm3).
      * intros ps' m5 r3 m6 Hm5 Hl. inversion Hl; subst. exact Hm5.
Qed.

Lemma parent_keeps_other a b m r m' :
  __eq__ a b = false ->
  coherent b m -> parent a m = (r, m') -> coherent b m'.
Proof.
  intros Hab Hm. unfold parent. apply lru_cache_keeps_other; try assumption.
  - keeps_slot.
  - intros r0 m0. apply (bind_keeps (coherent b)).
    + intros r1 m1 Hp. exact (parents_keeps_other _ _ _ _ _ Hab Hm Hp).
    + intros ps m1 r1 m2 Hm1. destruct ps; intros Hl; inversion Hl; subst; exact Hm1.
Qed.

Lemma join_snoc sep w ws x :
  PyStr.join sep (w :: ws ++ [x]) = PyStr.join sep (w :: ws) +:+ String sep x.
Proof.
  revert w. induction ws as [|v ws IH]; intros w; [reflexivity|].
  change (PyStr.join sep (w :: (v :: ws) ++ [x]))
    with (w +:+ String sep (PyStr.join sep (v :: ws ++ [x]))).
  rewrite IH, PyStrFacts.join_cons, string_app_assoc. reflexivity.
Qed.

(** What [parent], [subkey] of the parent and [name] come to for a key
    path of two components or more: the parent is the path of all
    components but the last, on the local machine. *)
Lemma parent_facts p alias mid leaf :
  constructed p ->
  value_name p = None ->
  components p = alias :: mid ++ [leaf] ->
  let q := ancestor p (S (length mid)) in
  head (ancestors p) = Some q /\
  subkey_value q = join_path mid /\
  name_value p = leaf /\
  __eq__ p q = false /\ __eq__ q p = false.
Proof.
  intros Hc Hv Hs q.
  assert (Hparts : parts_body p = alias :: mid ++ [leaf]).
  { unfold parts_body. rewrite Hv. exact Hs. }
  assert (Hlen : length (components p) = S (S (length mid))).
  { rewrite Hs. cbn. rewrite length_app. cbn. lia. }
  assert (Hq : parts_body q = alias :: mid).
  { unfold q. rewrite ancestor_parts by lia. rewrite Hparts.
    cbn [firstn]. f_equal. rewrite take_app_length. reflexivity. }
  assert (Hraw : _raw_path p = _raw_path q +:+ String PyStr.backslash leaf).
  { transitivity (join_path (components p)).
    - unfold components, _path_split, join_path, split_path.
      symmetry. apply PyStrFacts.join_split.
    - rewrite Hs. unfold q, ancestor. cbn [_raw_path]. rewrite Hparts.
      cbn [firstn]. rewrite take_app_length. apply join_snoc. }
  assert (Hrepr : String.length (__repr__ p) <> String.length (__repr__ q)).
  { unfold __repr__. rewrite Hv, Hraw.
    change (value_name q) with (@None string). change (computer q) with (@None string).
    rewrite !repr_length, string_length_app. cbn [String.length].
    destruct (computer p); lia. }
  repeat split.
  - unfold ancestors. rewrite parts_body_length, Hv, Hlen. reflexivity.
  - unfold subkey_value. change (_path_split q) with (parts_body q).
    rewrite Hq. reflexivity.
  - unfold name_value. rewrite Hv. unfold components in Hs. rewrite Hs.
    change (alias :: mid ++ [leaf]) with ((alias :: mid) ++ [leaf]).
    apply List.last_last.
  - apply neq_by_length. exact Hrepr.
  - apply neq_by_length. congruence.
Qed.

Section KeyFacts.

Context {W : Type} `{WinregKeys W}.

Lemma exists_keeps_other a b (st : State W) r st' :
  __eq__ a b = false ->
  coherent b (memo st) ->
  exists_ a st = (r, st') ->
  coherent b (memo st').
Proof.
  intros Hab Hm. destruct (subkey_total a (memo st)) as (sk & m1 & Hsk).
  pose proof (subkey_keeps_other _ _ _ _ _ Hab Hm Hsk) as Hm1.
  unfold exists_, try_except_FileNotFoundError.
  rewrite (get_subkey_handle_run _ _ _ _ _ _ _ Hsk). cbv zeta.
  destruct (ConnectRegistry (computer a) (_key a) (world st)) as [[reg|e] w1].
  - destruct (OpenKey reg _ _ w1) as [[h|e] w2].
    + destruct (value_name a) as [v|].
      * unfold bind, query_value_ex, record, ret. cbn [memo world calls].
        destruct (QueryValueEx h v w2) as [[x|e] w3]; cbn.
        -- intros Hr. inversion Hr; subst. exact Hm1.
        -- destruct (is_FileNotFoundError e); intros Hr; inversion Hr; subst;
             exact Hm1.
      * cbn. intros Hr. inversion Hr; subst. exact Hm1.
    + cbn. destruct (is_FileNotFoundError e); intros Hr; inversion Hr; subst;
        exact Hm1.
  - cbn. destruct (is_FileNotFoundError e); intros Hr; inversion Hr; subst;
      exact Hm.
Qed.

(** What [mkdir] and [rmdir] do at the end: they read [parent], open it
    for reading and writing, read [name] and act on the handle. *)
Lemma through_parent {A} p alias mid leaf (k : handle -> string -> M W A)
      (st : State W) :
  constructed p ->
  value_name p = None ->
  components p = alias :: mid ++ [leaf] ->
  coherent p (memo st) ->
  coherent (ancestor p (S (length mid))) (memo st) ->
  exists m1 m2 m3,
    (q <- memoised (parent p) ;;
     _get_subkey_handle q true true (fun handle =>
       n <- memoised (name p) ;; k handle n)) st
    = let rw := Z.lor KEY_READ KEY_WRITE in
      let c1 := calls st ++ [CallConnectRegistry None (_key p)] in
      match ConnectRegistry None (_key p) (world st) with
      | (Raise e, w1) => (Raise e, mkState m1 w1 c1)
      | (Ok reg_handle, w1) =>
          let c2 := c1 ++ [CallOpenKey reg_handle (join_path mid) rw] in
          match OpenKey reg_handle (join_path mid) rw w1 with
          | (Raise e, w2) => (Raise e, close reg_handle (mkState m2 w2 c2))
          | (Ok h, w2) =>
              let (r, st3) := k h leaf (mkState m3 w2 c2) in
              (r, close reg_handle (close h st3))
          end
      end.
Proof.
  intros Hc Hv Hs Hm Hmq.
  destruct (parent_facts p alias mid leaf Hc Hv Hs) as (Hhead & Hsub & Hname & Hpq & Hqp).
  set (q := ancestor p (S (length mid))) in *.
  destruct (parent_coherent _ _ _ Hc Hm Hhead) as (m1 & Hpar & Hm1).
  pose proof (parent_keeps_other _ _ _ _ _ Hpq Hmq Hpar) as Hq1.
  destruct (subkey_coherent _ _ Hq1) as (m2 & Hsk & Hq2).
  pose proof (subkey_keeps_other _ _ _ _ _ Hqp Hm1 Hsk) as Hm2.
  destruct (name_coherent _ _ Hm2) as (m3 & Hn & _).
  rewrite Hsub in Hsk. rewrite Hname in Hn.
  exists m1, m2, m3.
  rewrite (bind_Ok _ _ _ _ _ (memoised_run _ st _ _ Hpar)).
  rewrite (get_subkey_handle_run q true true _ (mkState m1 (world st) (calls st))
             _ _ Hsk).
  cbv zeta. cbn [memo world calls].
  change (computer q) with (@None string). change (_key q) with (_key p).
  change (access_mask true true) with (Z.lor KEY_READ KEY_WRITE).
  destruct (ConnectRegistry None (_key p) (world st)) as [[reg|e] w1]; [|reflexivity].
  destruct (OpenKey reg (join_path mid) (Z.lor KEY_READ KEY_WRITE) w1) as [[h|e] w2];
    [|reflexivity].
  erewrite bind_Ok by (apply memoised_run; exact Hn).
  reflexivity.
Qed.

End KeyFacts.

Lemma for_each_cons_inv {S A B} x (l : list A) (f : A -> St S B) st ys st' :
  for_each (x :: l) f st = (Ok ys, st') ->
  exists y ys' st1,
    f x st = (Ok y, st1) /\ for_each l f st1 = (Ok ys', st') /\ ys = y :: ys'.
Proof.
  cbn [for_each]. unfold bind.
  destruct (f x st) as [[y|e] st1] eqn:Hy; [|discriminate].
  destruct (for_each l f st1) as [[ys'|e] st2] eqn:Hl; [|discriminate].
  unfold ret. intros Hr. inversion Hr; subst.
  exists y, ys', st1. repeat split; assumption.
Qed.

Lemma bind_Ok_inv {S A B} (m : St S A) (k : A -> St S B) st b st' :
  bind m k st = (Ok b, st') ->
  exists a st1, m st = (Ok a, st1) /\ k a st1 = (Ok b, st').
Proof.
  unfold bind. destruct (m st) as [[a|e] st1]; [|discriminate].
  intros Hk. exists a, st1. split; [reflexivity|assumption].
Qed.

Section Emptiness.

Context {W : Type} `{WinregKeys W}.

(** The first item of the generator of [iterdir] is the head of the full
    listing, when the full listing can be made; and for an empty key,
    asking for the first item and listing do the same to the store. *)
Lemma iterdir_first_of_listing p (st : State W) items st' :
  iterdir p st = (Ok items, st') ->
  run (iterdir_first p) st = Ok (head items) /\
  (items = [] -> iterdir_first p st = (Ok None, st')).
Proof.
  intros Hrun. unfold iterdir in Hrun. unfold run, iterdir_first.
  apply bind_Ok_inv in Hrun as (d & st1 & Hd & Hrun).
  rewrite !(bind_Ok _ _ _ _ _ Hd).
  destruct d; cbn [negb] in *; [|discriminate].
  destruct (subkey_total p (memo st1)) as (sk & m1 & Hsk).
  rewrite (get_subkey_handle_run _ _ _ _ _ _ _ Hsk) in Hrun.
  rewrite !(get_subkey_handle_run _ _ _ _ _ _ _ Hsk). cbv zeta in *.
  destruct (ConnectRegistry (computer p) (_key p) (world st1)) as [[reg|e] w1];
    [|discriminate].
  destruct (OpenKey reg sk (access_mask true false) w1) as [[h|e] w2];
    [|discriminate].
  match type of Hrun with
  | context [bind (query_info_key h) ?k ?s] =>
      destruct (bind (query_info_key h) k s) as [r st3] eqn:Hbody
  end.
  inversion Hrun; subst. clear Hrun.
  apply bind_Ok_inv in Hbody as ([[nk nv] x] & s1 & Hq & Hbody).
  rewrite !(bind_Ok _ _ _ _ _ Hq).
  apply bind_Ok_inv in Hbody as (ks & s2 & Hks & Hbody).
  apply bind_Ok_inv in Hbody as (vs & s3 & Hvs & Hbody).
  inversion Hbody; subst. clear Hbody.
  destruct (PySeq.range 0 nk) as [|i rest].
  - inversion Hks; subst. clear Hks.
    destruct (PySeq.range 0 nv) as [|j rest'].
    + inversion Hvs; subst. split; reflexivity.
    + apply for_each_cons_inv in Hvs as (y & ys' & s4 & Hy & _ & ->).
      apply bind_Ok_inv in Hy as ([[vn data] typ] & s5 & He & Hy).
      rewrite !(bind_Ok _ _ _ _ _ He).
      rewrite !(bind_Ok _ _ _ _ _ Hy).
      split; [reflexivity|discriminate].
  - apply for_each_cons_inv in Hks as (y & ys' & s4 & Hy & _ & ->).
    apply bind_Ok_inv in Hy as (kn & s5 & He & Hy).
    rewrite !(bind_Ok _ _ _ _ _ He).
    rewrite !(bind_Ok _ _ _ _ _ Hy).
    split; [reflexivity|discriminate].
Qed.


Lemma is_dir_keeps p q (st : State W) r st' :
  __eq__ p q = false ->
  coherent p (memo st) -> coherent q (memo st) ->
  is_dir p st = (r, st') ->
  coherent p (memo st') /\ coherent q (memo st').
Proof.
  intros Hpq Hm Hmq. unfold is_dir. destruct (value_name p).
  - intros Hr. inversion Hr; subst. split; assumption.
  - intros Hr. split.
    + exact (exists_coherent _ _ _ _ Hm Hr).
    + exact (exists_keeps_other _ _ _ _ _ Hpq Hmq Hr).
Qed.

Lemma iterdir_first_none_keeps p q (st : State W) st' :
  __eq__ p q = false ->
  coherent p (memo st) -> coherent q (memo st) ->
  iterdir_first p st = (Ok None, st') ->
  coherent p (memo st') /\ coherent q (memo st').
Proof.
  intros Hpq Hm Hmq Hrun. unfold iterdir_first in Hrun.
  apply bind_Ok_inv in Hrun as (d & st1 & Hd & Hrun).
  destruct (is_dir_keeps _ _ _ _ _ Hpq Hm Hmq Hd) as (Hm1 & Hq1).
  destruct d; cbn [negb] in Hrun; [|discriminate].
  destruct (subkey_coherent _ _ Hm1) as (m2 & Hsk & Hm2).
  pose proof (subkey_keeps_other _ _ _ _ _ Hpq Hq1 Hsk) as Hq2.
  rewrite (get_subkey_handle_run _ _ _ _ _ _ _ Hsk) in Hrun. cbv zeta in Hrun.
  destruct (ConnectRegistry (computer p) (_key p) (world st1)) as [[reg|e] w1];
    [|discriminate].
  destruct (OpenKey reg _ (access_mask true false) w1) as [[h|e] w2];
    [|discriminate].
  match type of Hrun with
  | context [bind (query_info_key h) ?k ?s] =>
      destruct (bind (query_info_key h) k s) as [r st3] eqn:Hbody
  end.
  inversion Hrun; subst. clear Hrun. cbn [close memo].
  apply bind_Ok_inv in Hbody as ([[nk nv] x] & s1 & Hq & Hbody).
  assert (Hs1 : memo s1 = m2).
  { unfold query_info_key, record in Hq. cbn [memo world calls] in Hq.
    destruct (QueryInfoKey h w2). inversion Hq; subst. reflexivity. }
  destruct (PySeq.range 0 nk) as [|i rest].
  - destruct (PySeq.range 0 nv) as [|j rest'].
    + inversion Hbody; subst. split; assumption.
    + apply bind_Ok_inv in Hbody as ([[vn data] typ] & s4 & _ & Hbody).
      apply bind_Ok_inv in Hbody as (c & s5 & _ & Hbody). discriminate.
  - apply bind_Ok_inv in Hbody as (kn & s4 & _ & Hbody).
    apply bind_Ok_inv in Hbody as (c & s5 & _ & Hbody). discriminate.
Qed.

(** A path that is a root alias alone: [parent] raises. *)
Lemma root_parent_run p alias m :
  constructed p ->
  value_name p = None ->
  components p = [alias] ->
  coherent p m ->
  (exists m1, parents p m = (Ok [], m1) /\ coherent p m1) /\
  exists m2, parent p m = (Raise IndexError, m2).
Proof.
  intros Hc Hv Hs Hm.
  assert (Hanc : ancestors p = []).
  { unfold ancestors. rewrite parts_body_length, Hv, Hs. reflexivity. }
  destruct (parents_coherent _ _ Hc Hm) as (m1 & Hps & Hm1).
  rewrite Hanc in Hps. split; [exists m1; split; assumption|].
  unfold parent, lru_cache.
  destruct Hm as (_ & _ & _ & _ & Hparent).
  destruct (Lru.get p (slot_get parent_slot m)) as [q|] eqn:Hget.
  - apply Hparent in Hget. rewrite Hanc in Hget. discriminate.
  - rewrite (bind_Ok _ _ _ _ _ Hps). exists m1. reflexivity.
Qed.

(** X18.  [mkdir] on a value path raises [ValueError] and leaves the
    state as it was.  On a key that is there it makes nothing, with
    [parents] or without: it returns with [exist_ok] and raises
    [FileExistsError] without it, and all it has done to the store is
    the probe of [is_dir]. *)
Theorem mkdir_makes_nothing p parents' exist_ok (st : State W) :
  (value_name p <> None ->
   mkdir p parents' exist_ok st
   = (Raise (ValueError
        "Cannot mkdir if a value_name was given. This path is for a value not a key."),
      st)) /\
  (run (is_dir p) st = Ok true ->
   mkdir p parents' exist_ok st
   = (if exist_ok then Ok tt
      else Raise (FileExistsError ("Key " +:+ __repr__ p +:+ " already exists")),
      snd (is_dir p st))).
Proof.
  unfold mkdir, mkdir_body, run. split.
  - destruct (value_name p); [reflexivity|congruence].
  - intros Hd. destruct (value_name p) eqn:Hv.
    + unfold is_dir in Hd. rewrite Hv in Hd. discriminate.
    + destruct (is_dir p st) as [r st1] eqn:Hrun. cbn [fst snd] in *. subst r.
      rewrite (bind_Ok _ _ _ _ _ Hrun). destruct exist_ok; reflexivity.
Qed.

(** X19.  [mkdir] without [parents], on a key path of one segment or
    more that is not there yet, called while the memo tables are
    coherent for the path and for its parent: after the probe of
    [is_dir] it connects to the root on the local machine, whatever the
    host of the path, opens the key of all segments but the last for
    reading and writing, asks the store to create the last segment under
    it, and closes the new key, the opened key and the connection, in
    that order.  An error of the store on the way is raised as it is. *)
Theorem mkdir_creates_under_local_parent p mid leaf exist_ok (st : State W) :
  constructed p ->
  value_name p = None ->
  segments p = mid ++ [leaf] ->
  coherent p (memo st) ->
  coherent (ancestor p (S (length mid))) (memo st) ->
  run (is_dir p) st = Ok false ->
  let st1 := snd (is_dir p st) in
  let rw := Z.lor KEY_READ KEY_WRITE in
  let connect := CallConnectRegistry None (_key p) in
  match ConnectRegistry None (_key p) (world st1) with
  | (Raise e, _) => run (mkdir p false exist_ok) st = Raise e
  | (Ok reg_handle, w1) =>
      let open := CallOpenKey reg_handle (join_path mid) rw in
      match OpenKey reg_handle (join_path mid) rw w1 with
      | (Raise e, _) => run (mkdir p false exist_ok) st = Raise e
      | (Ok h, w2) =>
          match CreateKey h leaf w2 with
          | (Raise e, w3) =>
              exists m,
                mkdir p false exist_ok st
                = (Raise e,
                   mkState m (CloseKey reg_handle (CloseKey h w3))
                           (calls st1 ++ [connect; open; CallClose h;
                                          CallClose reg_handle]))
          | (Ok new_key, w3) =>
              exists m,
                mkdir p false exist_ok st
                = (Ok tt,
                   mkState m (CloseKey reg_handle (CloseKey h (CloseKey new_key w3)))
                           (calls st1 ++ [connect; open; CallClose new_key;
                                          CallClose h; CallClose reg_handle]))
          end
      end
  end.
Proof.
  intros Hc Hv Hseg Hm Hmq Hd. cbv zeta.
  destruct (components_segments p) as (alias & Hs). rewrite Hseg in Hs.
  destruct (parent_facts p alias mid leaf Hc Hv Hs) as (_ & _ & _ & Hpq & _).
  unfold run in Hd. destruct (is_dir p st) as [r st1] eqn:Hrun.
  cbn [fst snd] in *. subst r.
  destruct (is_dir_keeps _ _ _ _ _ Hpq Hm Hmq Hrun) as (Hm1 & Hq1).
  destruct (through_parent p alias mid leaf
              (fun handle n => with_ (create_key handle n) (fun _ => ret tt))
              st1 Hc Hv Hs Hm1 Hq1) as (m1 & m2 & m3 & Hthr).
  cbv beta zeta in Hthr.
  unfold run, mkdir, mkdir_body. rewrite Hv, (bind_Ok _ _ _ _ _ Hrun).
  rewrite (bind_Ok (ret tt) _ st1 tt st1 eq_refl), Hthr.
  destruct (ConnectRegistry None (_key p) (world st1)) as [[reg|e] w1]; [|reflexivity].
  destruct (OpenKey reg (join_path mid) (Z.lor KEY_READ KEY_WRITE) w1) as [[h|e] w2];
    [|reflexivity].
  unfold with_, bind, create_key, ret, close. cbn [memo world calls].
  destruct (CreateKey h leaf w2) as [[k|e] w3]; exists m3;
    cbn [memo world calls]; rewrite <- !app_assoc; reflexivity.
Qed.

(** X20.  [mkdir] on a path that is a root alias alone and does not
    open raises [IndexError], with [parents] or without and whatever
    [exist_ok]: the path has no parent to create it under. *)
Theorem mkdir_root_index_error p alias parents' exist_ok (st : State W) :
  constructed p ->
  value_name p = None ->
  components p = [alias] ->
  coherent p (memo st) ->
  run (is_dir p) st = Ok false ->
  run (mkdir p parents' exist_ok) st = Raise IndexError.
Proof.
  intros Hc Hv Hs Hm Hd. unfold run in *.
  destruct (is_dir p st) as [r st1] eqn:Hrun. cbn [fst] in Hd. subst r.
  assert (Hm1 : coherent p (memo st1)).
  { unfold is_dir in Hrun. rewrite Hv in Hrun.
    exact (exists_coherent _ _ _ _ Hm Hrun). }
  unfold mkdir, mkdir_body. rewrite Hv, (bind_Ok _ _ _ _ _ Hrun).
  destruct parents'.
  - destruct (root_parent_run p alias _ Hc Hv Hs Hm1) as ((m2 & Hps & Hm2) & _).
    destruct (root_parent_run p alias _ Hc Hv Hs Hm2) as (_ & m3 & Hpar).
    erewrite bind_Ok.
    2: { erewrite bind_Ok by (apply memoised_run; exact Hps). reflexivity. }
    erewrite bind_Raise by (apply memoised_run; exact Hpar). reflexivity.
  - destruct (root_parent_run p alias _ Hc Hv Hs Hm1) as (_ & m3 & Hpar).
    rewrite (bind_Ok (ret tt) _ st1 tt st1 eq_refl).
    erewrite bind_Raise by (apply memoised_run; exact Hpar). reflexivity.
Qed.

(** X21.  [rmdir] refuses in two ways before it touches the parent: on
    a path that is not a key that is there it raises the
    [NotADirectoryError] of [iterdir], and on a key that [iterdir] lists
    anything for it raises [OSError]; in both cases nothing is asked of
    the store beyond what [iterdir] asks for its first item. *)
Theorem rmdir_refuses p (st : State W) :
  (run (is_dir p) st = Ok false ->
   rmdir p st
   = (Raise (NotADirectoryError (__repr__ p +:+ " is not a key/directory")),
      snd (is_dir p st))) /\
  (forall c cs,
     run (iterdir p) st = Ok (c :: cs) ->
     rmdir p st
     = (Raise (OSError ("The directory/key is not empty: " +:+ __repr__ p)),
        snd (iterdir_first p st))).
Proof.
  unfold run. split.
  - intros Hd. destruct (is_dir p st) as [r st1] eqn:Hrun. cbn [fst snd] in *. subst r.
    assert (Hf : iterdir_first p st
                 = (Raise (NotADirectoryError (__repr__ p +:+ " is not a key/directory")),
                    st1)).
    { unfold iterdir_first. rewrite (bind_Ok _ _ _ _ _ Hrun). reflexivity. }
    unfold rmdir. rewrite (bind_Raise _ _ _ _ _ Hf). reflexivity.
  - intros c cs Hit. destruct (iterdir p st) as [r st'] eqn:Hrun. cbn [fst] in Hit.
    subst r. destruct (iterdir_first_of_listing _ _ _ _ Hrun) as (Hfirst & _).
    unfold run in Hfirst. destruct (iterdir_first p st) as [r st1] eqn:Hf.
    cbn [fst snd head] in *. subst r.
    unfold rmdir. rewrite (bind_Ok _ _ _ _ _ Hf). reflexivity.
Qed.

(** X22.  [rmdir] on a key path of one segment or more for which
    [iterdir] lists nothing, called while the memo tables are coherent
    for the path and for its parent: it connects to the root on the
    local machine, whatever the host of the path, opens the key of all
    segments but the last for reading and writing, asks the store to
    delete the last segment under it, and closes the opened key and the
    connection.  What the store answers to the deletion is what [rmdir]
    returns or raises. *)
Theorem rmdir_deletes_under_local_parent p mid leaf (st : State W) :
  constructed p ->
  value_name p = None ->
  segments p = mid ++ [leaf] ->
  coherent p (memo st) ->
  coherent (ancestor p (S (length mid))) (memo st) ->
  run (iterdir p) st = Ok [] ->
  let st1 := snd (iterdir p st) in
  let rw := Z.lor KEY_READ KEY_WRITE in
  let connect := CallConnectRegistry None (_key p) in
  match ConnectRegistry None (_key p) (world st1) with
  | (Raise e, _) => run (rmdir p) st = Raise e
  | (Ok reg_handle, w1) =>
      let open := CallOpenKey reg_handle (join_path mid) rw in
      match OpenKey reg_handle (join_path mid) rw w1 with
      | (Raise e, _) => run (rmdir p) st = Raise e
      | (Ok h, w2) =>
          let (r, w3) := DeleteKey h leaf w2 in
          exists m,
            rmdir p st
            = (r, mkState m (CloseKey reg_handle (CloseKey h w3))
                          (calls st1 ++ [connect; open; CallClose h;
                                         CallClose reg_handle]))
      end
  end.
Proof.
  intros Hc Hv Hseg Hm Hmq Hit. cbv zeta.
  destruct (components_segments p) as (alias & Hs). rewrite Hseg in Hs.
  destruct (parent_facts p alias mid leaf Hc Hv Hs) as (_ & _ & _ & Hpq & _).
  unfold run in Hit. destruct (iterdir p st) as [r st1] eqn:Hrun.
  cbn [fst snd] in *. subst r.
  destruct (iterdir_first_of_listing _ _ _ _ Hrun) as (_ & Hfirst).
  specialize (Hfirst eq_refl).
  destruct (iterdir_first_none_keeps _ _ _ _ Hpq Hm Hmq Hfirst) as (Hm1 & Hq1).
  destruct (through_parent p alias mid leaf
              (fun handle n => delete_key handle n)
              st1 Hc Hv Hs Hm1 Hq1) as (m1 & m2 & m3 & Hthr).
  cbv beta zeta in Hthr.
  unfold run, rmdir. rewrite (bind_Ok _ _ _ _ _ Hfirst), Hthr.
  destruct (ConnectRegistry None (_key p) (world st1)) as [[reg|e] w1]; [|reflexivity].
  destruct (OpenKey reg (join_path mid) (Z.lor KEY_READ KEY_WRITE) w1) as [[h|e] w2];
    [|reflexivity].
  unfold delete_key, close. cbn [memo world calls].
  destruct (DeleteKey h leaf w2) as [r w3]. exists m3.
  cbn [memo world calls]. rewrite <- !app_assoc. reflexivity.
Qed.

End Emptiness.

Lemma mkdir_makes_nothing_witness :
  let o := mkRegistryPath None None "HKLM\Other" HKEY_LOCAL_MACHINE in
  let st := Tree.fresh [["Other"%string]] in
  value_name (valued o (Some "v"%string)) <> None /\
  run (is_dir o) st = Ok true /\
  run (mkdir (valued o (Some "v"%string)) true true) st
  = Raise (ValueError
      "Cannot mkdir if a value_name was given. This path is for a value not a key.") /\
  run (mkdir o true true) st = Ok tt /\
  run (mkdir o true false) st
  = Raise (FileExistsError "Key <RegistryPath: HKLM\Other> already exists") /\
  Tree.keys (world (snd (mkdir o true true st))) = [["Other"%string]].
Proof.
  intros o st.
  assert (Hv : value_name (valued o (Some "v"%string)) <> None) by discriminate.
  assert (Hd : run (is_dir o) st = Ok true) by (vm_compute; reflexivity).
  split; [exact Hv|]. split; [exact Hd|]. unfold run.
  rewrite (proj1 (mkdir_makes_nothing (valued o (Some "v"%string)) true true st) Hv).
  rewrite (proj2 (mkdir_makes_nothing o true true st) Hd).
  rewrite (proj2 (mkdir_makes_nothing o true false st) Hd).
  repeat split.
Defined.

Lemma mkdir_creates_under_local_parent_witness :
  let p := mkRegistryPath (Some "\\lol"%string) None "HKLM\Other\Stuff"
                          HKEY_LOCAL_MACHINE in
  let st := Tree.fresh [["Other"%string]] in
  run (is_dir p) st = Ok false /\
  run (mkdir p false false) st = Ok tt /\
  Tree.keys (world (snd (mkdir p false false st)))
  = [["Other"]; ["Other"; "Stuff"]]%string /\
  calls (snd (mkdir p false false st))
  = calls (snd (is_dir p st))
    ++ [CallConnectRegistry None HKEY_LOCAL_MACHINE;
        CallOpenKey 0 "Other" (Z.lor KEY_READ KEY_WRITE);
        CallClose 2; CallClose 1; CallClose 0].
Proof.
  intros p st.
  assert (Hd : run (is_dir p) st = Ok false) by (vm_compute; reflexivity).
  split; [exact Hd|].
  assert (Hc : constructed p).
  { exists "HKLM\Other\Stuff"%string, None, (Some "lol"%string). vm_compute. reflexivity. }
  pose proof (mkdir_creates_under_local_parent p ["Other"%string] "Stuff" false st
                Hc eq_refl eq_refl (coherent_empty _) (coherent_empty _) Hd) as Hrun.
  unfold run.
  remember (mkdir p false false st) as outcome eqn:Hout.
  unfold run in Hrun. rewrite <- Hout in Hrun.
  vm_compute in Hrun. destruct Hrun as [m ->]. vm_compute. repeat split.
Defined.

Lemma mkdir_root_index_error_witness :
  let p := mkRegistryPath (Some "\\lol"%string) None "HKLM" HKEY_LOCAL_MACHINE in
  run (is_dir p) (Tree.fresh []) = Ok false /\
  run (mkdir p true true) (Tree.fresh []) = Raise IndexError.
Proof.
  intros p.
  assert (Hd : run (is_dir p) (Tree.fresh []) = Ok false) by (vm_compute; reflexivity).
  split; [exact Hd|].
  apply (mkdir_root_index_error p "HKLM" true true (Tree.fresh [])).
  - exists "HKLM"%string, None, (Some "lol"%string). vm_compute. reflexivity.
  - reflexivity.
  - reflexivity.
  - apply coherent_empty.
  - exact Hd.
Defined.

Lemma rmdir_refuses_witness :
  let o := mkRegistryPath None None "HKLM\Other" HKEY_LOCAL_MACHINE in
  let st := Tree.fresh [["Other"]; ["Other"; "Stuff"]]%string in
  run (is_dir (valued o (Some "v"%string))) st = Ok false /\
  run (iterdir o) st = Ok [child o "Stuff"] /\
  run (rmdir (valued o (Some "v"%string))) st
  = Raise (NotADirectoryError
             "<RegistryPath: HKLM\Other -> v> is not a key/directory") /\
  run (rmdir o) st
  = Raise (OSError "The directory/key is not empty: <RegistryPath: HKLM\Other>") /\
  Tree.keys (world (snd (rmdir o st))) = [["Other"]; ["Other"; "Stuff"]]%string.
Proof.
  intros o st.
  assert (Hd : run (is_dir (valued o (Some "v"%string))) st = Ok false)
    by (vm_compute; reflexivity).
  assert (Hit : run (iterdir o) st = Ok [child o "Stuff"]) by (vm_compute; reflexivity).
  split; [exact Hd|]. split; [exact Hit|]. unfold run.
  rewrite (proj1 (rmdir_refuses (valued o (Some "v"%string)) st) Hd).
  rewrite (proj2 (rmdir_refuses o st) _ _ Hit).
  repeat split.
Defined.

Lemma rmdir_deletes_under_local_parent_witness :
  let p := mkRegistryPath (Some "\\lol"%string) None "HKLM\Other\Stuff"
                          HKEY_LOCAL_MACHINE in
  let st := Tree.fresh [["Other"]; ["Other"; "Stuff"]]%string in
  run (iterdir p) st = Ok [] /\
  run (rmdir p) st = Ok tt /\
  Tree.keys (world (snd (rmdir p st))) = [["Other"%string]] /\
  calls (snd (rmdir p st))
  = calls (snd (iterdir p st))
    ++ [CallConnectRegistry None HKEY_LOCAL_MACHINE;
        CallOpenKey 0 "Other" (Z.lor KEY_READ KEY_WRITE);
        CallClose 3; CallClose 0].
Proof.
  intros p st.
  assert (Hit : run (iterdir p) st = Ok []) by (vm_compute; reflexivity).
  split; [exact Hit|].
  assert (Hc : constructed p).
  { exists "HKLM\Other\Stuff"%string, None, (Some "lol"%string). vm_compute. reflexivity. }
  pose proof (rmdir_deletes_under_local_parent p ["Other"%string] "Stuff" st
                Hc eq_refl eq_refl (coherent_empty _) (coherent_empty _) Hit) as Hrun.
  unfold run.
  remember (rmdir p st) as outcome eqn:Hout.
  unfold run in Hrun. rewrite <- Hout in Hrun.
  vm_compute in Hrun. destruct Hrun as [m ->]. vm_compute. repeat split.
Defined.

(** ** The file test without an argument *)

Section FileProbe.

Context {W : Type} `{Winreg W}.

(** X23.  [is_file] with the argument left out, on a value path, is
    [is_dir] of the key of that path: the path it probes is rebuilt
    with the argument, which is [None], so the value itself is never
    looked up. *)
Theorem is_file_omitted_tests_key p v (st : State W) :
  constructed p ->
  value_name p = Some v ->
  is_file p None st = is_dir (valued p None) st.
Proof.
  intros Hc Hv. unfold is_file, is_dir, py_or. rewrite Hv.
  rewrite (with_value_name_constructed _ None Hc). reflexivity.
Qed.

End FileProbe.

Lemma is_file_omitted_tests_key_witness :
  let p := mkRegistryPath None (Some "gone"%string) "HKLM\Other\Stuff"
                          HKEY_LOCAL_MACHINE in
  let st := Mock.fresh (Mock.mkStore "Other\Stuff" [] []) in
  run (exists_ p) st = Ok false /\
  run (is_file p None) st = Ok true.
Proof.
  intros p st. split; [vm_compute; reflexivity|].
  unfold run. rewrite (is_file_omitted_tests_key p "gone" st).
  - vm_compute. reflexivity.
  - exists "HKLM\Other\Stuff"%string, (Some "gone"%string), None. vm_compute. reflexivity.
  - reflexivity.
Defined.
